(** * Menu projection and widget opening of the Theia browser front end

    A shallow embedding of
    [packages/core/src/browser/menu/browser-menu-plugin.ts]
    ([BrowserMainMenuFactory], [DynamicMenuWidget]) and of the
    [WidgetOpenHandler] that ships in the same unit.

    Conventions of the embedding:
    - a JavaScript array that is filled with [push] is a [list] that grows at
      its end; a fresh [[]] literal is [[]];
    - a method reads the collaborators it was injected with ([CommandRegistry],
      [KeybindingRegistry], [MenuModelRegistry]) in the state they have at the
      moment of the call: that state is the [World] argument;
    - a closure [() => this.commandRegistry.isVisible(command.id)] is kept as
      the command id it closes over and is run against the [World] of the
      moment it is called;
    - an exception thrown by a callee is [None] in the [option] monad. *)

From stdpp Require Import base option list strings gmap.
From Stdlib Require Import Lia.

Open Scope string_scope.
Open Scope nat_scope.
Open Scope list_scope.

(** ** The collaborators from [../../common] and [../keybinding] *)

Module Common.

(** Modelled from the spec: the [Command] of [../../common], which
    [CommandRegistry.getCommand] hands out; the unit reads its [id] and its
    [iconClass]. *)
Record Command := mkCommand {
  id : string;
  label : option string;
  iconClass : option string
}.

(** Modelled from the spec: what a command registration keeps under the id
    of the command. *)
Record CommandData := mkCommandData {
  data_label : option string;
  data_iconClass : option string
}.

(** Modelled from the spec: the command collaborator of [../../common] in the
    state it has at one instant, that is the registered commands and the
    answers to [isEnabled], [isVisible] and [isToggled]. A command that
    [getCommand] finds under an id carries that id. *)
Record CommandRegistry := mkCommandRegistry {
  registered : gmap string CommandData;
  enabledNow : string → bool;
  visibleNow : string → bool;
  toggledNow : string → bool
}.

Definition getCommand (r : CommandRegistry) (i : string) : option Command :=
  d ← registered r !! i; Some (mkCommand i (data_label d) (data_iconClass d)).

Definition isEnabled (r : CommandRegistry) (i : string) : bool := enabledNow r i.
Definition isVisible (r : CommandRegistry) (i : string) : bool := visibleNow r i.
Definition isToggled (r : CommandRegistry) (i : string) : bool := toggledNow r i.

(** Modelled from the spec: a [Keybinding] of [../keybinding], a command and
    the keystrokes bound to it. *)
Record Keybinding := mkKeybinding {
  command : string;
  keybinding : string
}.

(** Modelled from the spec: the keybinding collaborator, that is the
    bindings of a command in the order [getKeybindingsForCommand] returns
    them and the formatter [Keybinding.acceleratorFor]; both are arbitrary. *)
Record KeybindingRegistry := mkKeybindingRegistry {
  getKeybindingsForCommand : string → list Keybinding;
  acceleratorFor : Keybinding → list string
}.

(** Modelled from the spec: an [ActionMenuNode] of [../../common], read
    through [item.action.commandId] and [item.label]. *)
Record ActionMenuNode := mkActionMenuNode {
  action_commandId : string;
  action_label : string
}.

(** Modelled from the spec: the menu model of [../../common]. A node is an
    action or a composite; a composite has an optional label, says whether
    it is a submenu, and owns its children in order. *)
Inductive MenuNode : Type :=
| Action (a : ActionMenuNode)
| Composite (c : CompositeMenuNode)
with CompositeMenuNode : Type :=
| mkCompositeMenuNode (node_id : string) (node_label : option string)
    (node_isSubmenu : bool) (node_children : list MenuNode).

Definition children (c : CompositeMenuNode) : list MenuNode :=
  match c with mkCompositeMenuNode _ _ _ cs => cs end.

Definition isSubmenu (c : CompositeMenuNode) : bool :=
  match c with mkCompositeMenuNode _ _ s _ => s end.

Definition menu_label (c : CompositeMenuNode) : option string :=
  match c with mkCompositeMenuNode _ l _ _ => l end.

Definition MenuPath := list string.

Definition MAIN_MENU_BAR : MenuPath := ["menubar"].

(** Modelled from the spec: [MenuModelRegistry.getMenu], the composite found
    under a path. *)
Definition MenuModelRegistry := MenuPath → CompositeMenuNode.

End Common.

(** ** [@phosphor/commands] and [@phosphor/widgets], as far as the unit uses them

    Both are libraries the unit imports; what is kept of them is the part of
    their documented behaviour that the unit relies on. *)

Module Phosphor.

(** The options handed to [addCommand] of the library. The four closures [execute],
    [isEnabled], [isVisible] and [isToggled] all close over [command.id]
    and nothing else: [closes_over] is that id. *)
Record ICommandOptions := mkICommandOptions {
  closes_over : string;
  opt_label : string;
  opt_icon : option string
}.

Record IKeyBindingOptions := mkIKeyBindingOptions {
  kb_command : string;
  kb_keys : list string;
  kb_selector : string
}.

(** A [CommandRegistry] of Phosphor: the commands by id, the key bindings
    in the order they were added, and whether the instance's [isVisible]
    method has been replaced by [() => true]. *)
Record CommandRegistry := mkCommandRegistry {
  _commands : gmap string ICommandOptions;
  _keyBindings : list IKeyBindingOptions;
  isVisible_replaced : bool
}.

(** [new CommandRegistry()] *)
Definition empty : CommandRegistry := mkCommandRegistry ∅ [] false.

(** [addCommand(id, options)]: the library throws when [id] is already
    registered, and otherwise keeps the options under [id]. *)
Definition addCommand (i : string) (o : ICommandOptions) (r : CommandRegistry)
  : option CommandRegistry :=
  match _commands r !! i with
  | Some _ => None
  | None => Some (mkCommandRegistry (<[i := o]> (_commands r)) (_keyBindings r)
                    (isVisible_replaced r))
  end.

(** [addKeyBinding(options)]: the binding is added after those that are
    there, with the keys it was handed. *)
Definition addKeyBinding (o : IKeyBindingOptions) (r : CommandRegistry)
  : CommandRegistry :=
  mkCommandRegistry (_commands r) (_keyBindings r ++ [o]) (isVisible_replaced r).

(** [commands.isVisible(id)]: the replaced method when there is one;
    otherwise the registered command's [isVisible] closure, and [false]
    for an id that is not registered. *)
Definition isVisible (now : Common.CommandRegistry) (r : CommandRegistry)
    (i : string) : bool :=
  if isVisible_replaced r then true
  else match _commands r !! i with
       | Some o => Common.isVisible now (closes_over o)
       | None => false
       end.

(** [phosphorCommands.isVisible = () => true] *)
Definition replace_isVisible (r : CommandRegistry) : CommandRegistry :=
  mkCommandRegistry (_commands r) (_keyBindings r) true.

(** [Menu.IItemOptions], and the [Menu] a submenu item carries: its
    [title.label] and its [items]. *)
Inductive IItemOptions : Type :=
| CommandItem (command : string)
| SubmenuItem (submenu : Menu)
| SeparatorItem
with Menu : Type :=
| mkMenu (title_label : string) (menu_items : list IItemOptions).

Definition title (m : Menu) : string :=
  match m with mkMenu t _ => t end.

Definition items (m : Menu) : list IItemOptions :=
  match m with mkMenu _ l => l end.

(** [Menu.IOptions] *)
Record IOptions := mkIOptions { commands : CommandRegistry }.

(** [menu.addItem(options)] and [menu.clearItems()] *)
Definition addItem (o : IItemOptions) (m : Menu) : Menu :=
  mkMenu (title m) (items m ++ [o]).

Definition clearItems (m : Menu) : Menu := mkMenu (title m) [].

End Phosphor.

Import Common Phosphor.

(** ** [BrowserMainMenuFactory] and [DynamicMenuWidget] *)

(** The collaborators injected into the factory, in the state they have at
    one instant. *)
Record World := mkWorld {
  commandRegistry : Common.CommandRegistry;
  keybindingRegistry : KeybindingRegistry;
  menuProvider : MenuModelRegistry
}.

(** [DynamicMenuWidget]: the two fields of the class and the [Menu] it
    extends. [menu] is the model node the widget points to, with the
    children that node has now. *)
Record DynamicMenuWidget := mkDynamicMenuWidget {
  menu : CompositeMenuNode;
  options : IOptions;
  super : Menu
}.

(** The title a [DynamicMenuWidget] starts with:
    [if (menu.label) { this.title.label = menu.label; }] over the empty
    title of a fresh [Menu]. *)
Definition initial_title (m : CompositeMenuNode) : string :=
  match menu_label m with
  | Some l => if String.eqb l "" then "" else l
  | None => ""
  end.

Section Projection.

Variable now : Common.CommandRegistry.

(** [buildSubMenus(items, menu, commands)] of the widget whose [options]
    are [this_options]. A [continue] leaves [items] as it is. The
    constructor call [new DynamicMenuWidget(item, this.options)] runs
    [updateSubMenus], that is [buildSubMenus([], item,
    this.options.commands)], and adds every item to the new menu
    ([submenu_is_new_widget] below). *)
Fixpoint buildSubMenus (this_options : IOptions) (items0 : list IItemOptions)
    (m : CompositeMenuNode) (cmds : Phosphor.CommandRegistry) {struct m}
  : list IItemOptions :=
  match m with
  | mkCompositeMenuNode _ _ _ cs =>
    fold_left (fun items item =>
      match item with
      | Composite c =>
        if 0 <? length (children c) then
          if isSubmenu c then
            let submenu :=
              mkMenu (initial_title c)
                (buildSubMenus this_options [] c (commands this_options)) in
            if length (Phosphor.items submenu) =? 0 then items
            else items ++ [SubmenuItem submenu]
          else
            let submenu := buildSubMenus this_options [] c cmds in
            if length submenu =? 0 then items
            else
              let items := if 0 <? length items
                           then items ++ [SeparatorItem] else items in
              items ++ submenu
        else items
      | Action a =>
        if negb (Phosphor.isVisible now cmds (action_commandId a)) then items
        else items ++ [CommandItem (action_commandId a)]
      end) cs items0
  end.

End Projection.

(** [updateSubMenus(parent, menu, commands)]: every item of the projection
    is added to [parent]. *)
Definition updateSubMenus (now : Common.CommandRegistry) (this_options : IOptions)
    (parent : Menu) (m : CompositeMenuNode) (cmds : Phosphor.CommandRegistry) : Menu :=
  let items := buildSubMenus now this_options [] m cmds in
  fold_left (fun parent item => addItem item parent) items parent.

(** [new DynamicMenuWidget(menu, options)] *)
Definition new_DynamicMenuWidget (now : Common.CommandRegistry)
    (m : CompositeMenuNode) (o : IOptions) : DynamicMenuWidget :=
  mkDynamicMenuWidget m o
    (updateSubMenus now o (mkMenu (initial_title m) []) m (commands o)).

(** [aboutToShow()] *)
Definition aboutToShow (now : Common.CommandRegistry) (this : DynamicMenuWidget)
  : DynamicMenuWidget :=
  let cleared := clearItems (super this) in
  mkDynamicMenuWidget (menu this) (options this)
    (updateSubMenus now (options this) cleared (menu this) (commands (options this))).

(** [addPhosphorCommand(commands, menu)] *)
Definition addPhosphorCommand (w : World) (cmds : Phosphor.CommandRegistry)
    (a : ActionMenuNode) : option Phosphor.CommandRegistry :=
  match getCommand (commandRegistry w) (action_commandId a) with
  | None => Some cmds
  | Some command =>
    cmds ← addCommand (id command)
              (mkICommandOptions (id command) (action_label a) (iconClass command)) cmds;
    let bindings := getKeybindingsForCommand (keybindingRegistry w) (id command) in
    match bindings with
    | binding :: _ =>
      let keys := acceleratorFor (keybindingRegistry w) binding in
      Some (addKeyBinding (mkIKeyBindingOptions (id command) keys ".p-Widget") cmds)
    | [] => Some cmds
    end
  end.

(** [addPhosphorCommands(commands, menu)]; once a call has thrown, the rest
    of the loop does not run. *)
Fixpoint addPhosphorCommands (w : World) (cmds : Phosphor.CommandRegistry)
    (m : CompositeMenuNode) {struct m} : option Phosphor.CommandRegistry :=
  match m with
  | mkCompositeMenuNode _ _ _ cs =>
    fold_left (fun acc child =>
      cmds ← acc;
      match child with
      | Action a => addPhosphorCommand w cmds a
      | Composite c => addPhosphorCommands w cmds c
      end) cs (Some cmds)
  end.

(** [createPhosporCommands(menu)] *)
Definition createPhosporCommands (w : World) (m : CompositeMenuNode)
  : option Phosphor.CommandRegistry :=
  addPhosphorCommands w Phosphor.empty m.

(** [DynamicMenuBarWidget]: the menus of the bar and the index of the active
    one. *)
Record DynamicMenuBarWidget := mkDynamicMenuBarWidget {
  bar_id : string;
  menus : list DynamicMenuWidget;
  activeIndex : option nat
}.

(** [createMenuBar()] *)
Definition createMenuBar (w : World) : option DynamicMenuBarWidget :=
  let menuModel := menuProvider w MAIN_MENU_BAR in
  phosphorCommands ← createPhosporCommands w menuModel;
  let phosphorCommands := replace_isVisible phosphorCommands in
  Some (mkDynamicMenuBarWidget "theia:menubar"
          (fold_left (fun bar m =>
             match m with
             | Composite c =>
               bar ++ [new_DynamicMenuWidget (commandRegistry w) c
                         (mkIOptions phosphorCommands)]
             | Action _ => bar
             end) (children menuModel) [])
          None).

(** [createContextMenu(path)] *)
Definition createContextMenu (w : World) (path : MenuPath) : option DynamicMenuWidget :=
  let menuModel := menuProvider w path in
  phosphorCommands ← createPhosporCommands w menuModel;
  Some (new_DynamicMenuWidget (commandRegistry w) menuModel (mkIOptions phosphorCommands)).

(** The hook the bar installs on [_openChildMenu]: the active menu gets
    [aboutToShow()] before it is opened. *)
Definition _openChildMenu (now : Common.CommandRegistry) (bar : DynamicMenuBarWidget)
  : DynamicMenuBarWidget :=
  match activeIndex bar with
  | Some i =>
    match menus bar !! i with
    | Some active =>
      mkDynamicMenuBarWidget (bar_id bar) (<[i := aboutToShow now active]> (menus bar))
        (activeIndex bar)
    | None => bar
    end
  | None => bar
  end.

(** ** Opening and closing a [DynamicMenuWidget] *)

Module Lifecycle.

Definition HTMLElement := nat.

(** The callback [cb] of one [open] call: a closure of its own, told from
    the others by [cb_id], over the element that was active. *)
Record Callback := mkCallback {
  cb_id : nat;
  previouslyActive : HTMLElement
}.

(** The widget and the document around it: [window.document.activeElement],
    the widget's own node, whether it is attached, the slots connected to
    its [aboutToClose] signal in connection order, the number of closures
    made so far, and the [previouslyActive.focus()] calls made so far. *)
Record State := mkState {
  activeElement : HTMLElement;
  node : HTMLElement;
  isAttached : bool;
  aboutToClose : list Callback;
  closures : nat;
  focusCalls : list HTMLElement
}.

Definition connected (cb : Callback) (s : State) : bool :=
  bool_decide (cb_id cb ∈ map cb_id (aboutToClose s)).

(** [this.aboutToClose.connect(cb)] *)
Definition connect (cb : Callback) (s : State) : State :=
  if connected cb s then s
  else mkState (activeElement s) (node s) (isAttached s)
         (aboutToClose s ++ [cb]) (closures s) (focusCalls s).

(** [this.aboutToClose.disconnect(cb)] *)
Definition disconnect (cb : Callback) (s : State) : State :=
  mkState (activeElement s) (node s) (isAttached s)
    (filter (λ c, cb_id c ≠ cb_id cb) (aboutToClose s)) (closures s) (focusCalls s).

(** The body of [cb]: [previouslyActive.focus(); this.aboutToClose.disconnect(cb);] *)
Definition run (cb : Callback) (s : State) : State :=
  let s := mkState (previouslyActive cb) (node s) (isAttached s)
             (aboutToClose s) (closures s) (focusCalls s ++ [previouslyActive cb]) in
  disconnect cb s.

(** [signal.emit()]: the slots connected when the emission starts are
    called in connection order, each one only if it is still connected
    when its turn comes. *)
Fixpoint emit_to (receivers : list Callback) (s : State) : State :=
  match receivers with
  | [] => s
  | cb :: rest => emit_to rest (if connected cb s then run cb s else s)
  end.

Definition emit (s : State) : State := emit_to (aboutToClose s) s.

(** [Menu.open(x, y, options)] of Phosphor: nothing when the menu is already
    attached; otherwise the menu is attached and activated, which moves the
    focus to its node. *)
Definition super_open (s : State) : State :=
  if isAttached s then s
  else mkState (node s) (node s) true (aboutToClose s) (closures s) (focusCalls s).

(** [DynamicMenuWidget.open(x, y, options)] *)
Definition open (s : State) : State :=
  let previouslyActive := activeElement s in
  let cb := mkCallback (closures s) previouslyActive in
  let s := mkState (activeElement s) (node s) (isAttached s)
             (aboutToClose s) (S (closures s)) (focusCalls s) in
  let s := connect cb s in
  super_open s.

(** [Menu.close()] of Phosphor: an attached menu emits [aboutToClose] and
    is then detached; a menu that is not attached emits nothing. *)
Definition close (s : State) : State :=
  if isAttached s then
    let s := emit s in
    mkState (activeElement s) (node s) false (aboutToClose s) (closures s) (focusCalls s)
  else s.

(** The user, or other code, moves the focus to another element. *)
Definition move_focus (e : HTMLElement) (s : State) : State :=
  mkState e (node s) (isAttached s) (aboutToClose s) (closures s) (focusCalls s).

(** A widget that was just constructed. *)
Definition created (active n : HTMLElement) : State :=
  mkState active n false [] 0 [].

Inductive step : State → State → Prop :=
| step_open s : step s (open s)
| step_close s : step s (close s)
| step_focus e s : step s (move_focus e s).

Inductive reachable : State → Prop :=
| reachable_created active n : reachable (created active n)
| reachable_step s s' : reachable s → step s s' → reachable s'.

End Lifecycle.

(** ** [WidgetOpenHandler] *)

Module WidgetOpen.

(** Modelled from the spec: the [URI] class of [../common/uri] is not part
    of the unit. A URI has the five components of a URI reference;
    [withoutFragment] gives the same URI with an empty fragment; its
    [toString] is any one function of the components. *)
Record URI := mkURI {
  scheme : string;
  authority : string;
  path : string;
  query : string;
  fragment : string
}.

Definition withoutFragment (u : URI) : URI :=
  mkURI (scheme u) (authority u) (path u) (query u) "".

Class UriToString := toString : URI → string.

Inductive WidgetOpenMode := mode_open | mode_reveal | mode_activate.

(** [ApplicationShell.WidgetOptions] *)
Record WidgetOptions := mkWidgetOptions { area : string }.

(** What the optional property [mode?: WidgetOpenMode] holds when the
    object has it: a mode, or [undefined]. *)
Inductive ModeValue := mode_undefined | mode_is (m : WidgetOpenMode).

(** [WidgetOpenerOptions]; [None] is a property that is not there. For
    [mode], a property that is there with the value [undefined] is
    [Some mode_undefined]: the spread in [doOpen] tells it from a property
    that is not there. For [widgetOptions] the two read alike under [||]. *)
Record WidgetOpenerOptions := mkWidgetOpenerOptions {
  mode : option ModeValue;
  widgetOptions : option WidgetOptions
}.

(** A widget is known by its id; whether it is attached is the shell's
    state, shared by everyone who holds the widget. *)
Record BaseWidget := mkBaseWidget { widget_id : string }.

Inductive ShellCall :=
| addWidget_call (w : BaseWidget) (o : WidgetOptions)
| activateWidget_call (i : string)
| revealWidget_call (i : string).

(** The shell: the ids of the attached widgets and the calls it received. *)
Record ApplicationShell := mkApplicationShell {
  attached : gset string;
  calls : list ShellCall
}.

Definition isAttached (sh : ApplicationShell) (w : BaseWidget) : bool :=
  bool_decide (widget_id w ∈ attached sh).

Definition addWidget (w : BaseWidget) (o : WidgetOptions) (sh : ApplicationShell)
  : ApplicationShell :=
  mkApplicationShell ({[widget_id w]} ∪ attached sh) (calls sh ++ [addWidget_call w o]).

Definition activateWidget (i : string) (sh : ApplicationShell) : ApplicationShell :=
  mkApplicationShell (attached sh) (calls sh ++ [activateWidget_call i]).

Definition revealWidget (i : string) (sh : ApplicationShell) : ApplicationShell :=
  mkApplicationShell (attached sh) (calls sh ++ [revealWidget_call i]).

(** Modelled from the spec: the [WidgetManager] of [./widget-manager] is
    not part of the unit. It keeps the widgets it made under the pair of
    factory id and widget-options key; [getOrCreateWidget] reuses an
    existing widget if the manager already has one for the key and
    otherwise asks the factory, whose failure is the failure of the call
    and whose widget is stored and announced on [onDidCreateWidget];
    [getWidget] only looks the key up. *)
Record WidgetManager := mkWidgetManager {
  widgets : gmap (string * string) BaseWidget;
  factory : string → string → option BaseWidget;
  didCreate : list (string * BaseWidget)
}.

Definition manager_getWidget (m : WidgetManager) (factoryId key : string)
  : option BaseWidget :=
  widgets m !! (factoryId, key).

Definition manager_getOrCreateWidget (m : WidgetManager) (factoryId key : string)
  : option (BaseWidget * WidgetManager) :=
  match widgets m !! (factoryId, key) with
  | Some w => Some (w, m)
  | None =>
    w ← factory m factoryId key;
    Some (w, mkWidgetManager (<[(factoryId, key) := w]> (widgets m)) (factory m)
               (didCreate m ++ [(factoryId, w)]))
  end.

(** What a handler works on: the shell and the widget manager it was
    injected with. *)
Record State := mkState {
  shell : ApplicationShell;
  widgetManager : WidgetManager
}.

(** The abstract [id] of a handler. *)
Record WidgetOpenHandler := mkWidgetOpenHandler { id : string }.

(** The events of [onCreated]: [init] forwards the manager's creations
    whose factory id is the handler's. *)
Definition onCreated (h : WidgetOpenHandler) (s : State) : list BaseWidget :=
  snd <$> filter (λ e, fst e = id h) (didCreate (widgetManager s)).

Section Handler.

Context `{UriToString}.
Variable this : WidgetOpenHandler.

(** [createWidgetOptions(uri, options)] *)
Definition createWidgetOptions (uri : URI) (options : option WidgetOpenerOptions)
  : string :=
  toString (withoutFragment uri).

(** [getWidget(uri, options)] *)
Definition getWidget (uri : URI) (options : option WidgetOpenerOptions) (s : State)
  : option BaseWidget :=
  let widgetOptions := createWidgetOptions uri options in
  manager_getWidget (widgetManager s) (id this) widgetOptions.

(** [getOrCreateWidget(uri, options)] *)
Definition getOrCreateWidget (uri : URI) (options : option WidgetOpenerOptions)
    (s : State) : option (BaseWidget * State) :=
  let widgetOptions := createWidgetOptions uri options in
  '(w, m) ← manager_getOrCreateWidget (widgetManager s) (id this) widgetOptions;
  Some (w, mkState (shell s) m).

(** [getByUri(uri)] *)
Definition getByUri (uri : URI) (s : State) : option BaseWidget :=
  getWidget uri None s.

(** [doOpen(widget, options)]. In [{ mode: 'activate', ...options }] the
    [mode] of [options] replaces ['activate'] whenever [options] has the
    property, also when its value is [undefined]; [op.mode] is then compared
    with ['activate'] and with ['reveal']. *)
Definition doOpen (widget : BaseWidget) (options : option WidgetOpenerOptions)
    (s : State) : State :=
  let op_mode := default (mode_is mode_activate) (options ≫= mode) in
  let op_widgetOptions := options ≫= widgetOptions in
  let sh := shell s in
  let sh := if negb (isAttached sh widget)
            then addWidget widget (default (mkWidgetOptions "main") op_widgetOptions) sh
            else sh in
  let sh := match op_mode with
            | mode_is mode_activate => activateWidget (widget_id widget) sh
            | mode_is mode_reveal => revealWidget (widget_id widget) sh
            | mode_is mode_open => sh
            | mode_undefined => sh
            end in
  mkState sh (widgetManager s).

(** [open(uri, options)]; a rejected promise is [None]. *)
Definition open (uri : URI) (options : option WidgetOpenerOptions) (s : State)
  : option (BaseWidget * State) :=
  '(widget, s) ← getOrCreateWidget uri options s;
  let s := doOpen widget options s in
  Some (widget, s).

End Handler.

End WidgetOpen.

(** ** Notions the properties are stated with *)

Section ProjectionNotions.

Variable now : Common.CommandRegistry.
Variable this_options : IOptions.

(** One turn of the loop of [buildSubMenus]. *)
Definition projectChild (cmds : Phosphor.CommandRegistry)
    (items : list IItemOptions) (item : MenuNode) : list IItemOptions :=
  match item with
  | Composite c =>
    if 0 <? length (children c) then
      if isSubmenu c then
        let submenu :=
          mkMenu (initial_title c)
            (buildSubMenus now this_options [] c (commands this_options)) in
        if length (Phosphor.items submenu) =? 0 then items
        else items ++ [SubmenuItem submenu]
      else
        let submenu := buildSubMenus now this_options [] c cmds in
        if length submenu =? 0 then items
        else
          let items := if 0 <? length items
                       then items ++ [SeparatorItem] else items in
          items ++ submenu
    else items
  | Action a =>
    if negb (Phosphor.isVisible now cmds (action_commandId a)) then items
    else items ++ [CommandItem (action_commandId a)]
  end.

(** The projection of a composite as [updateSubMenus] asks for it. *)
Definition project (m : CompositeMenuNode) : list IItemOptions :=
  buildSubMenus now this_options [] m (commands this_options).

(** What a child brings to an output that was empty before it. *)
Definition contribution (item : MenuNode) : list IItemOptions :=
  projectChild (commands this_options) [] item.

(** The action nodes below a composite that the command registry of the
    widget reports visible. *)
Fixpoint visibleLeaves (m : CompositeMenuNode) : nat :=
  match m with
  | mkCompositeMenuNode _ _ _ cs =>
    sum_list (map (fun item =>
      match item with
      | Action a =>
        if Phosphor.isVisible now (commands this_options) (action_commandId a)
        then 1 else 0
      | Composite c => visibleLeaves c
      end) cs)
  end.

End ProjectionNotions.

Definition is_separator (i : IItemOptions) : bool :=
  match i with SeparatorItem => true | _ => false end.

(** The separators of a descriptor list, not counting those inside its
    submenus. *)
Definition separators (l : list IItemOptions) : nat :=
  length (filter (λ i, is_separator i = true) l).

(** A group is a composite that is not a submenu. *)
Definition is_group (item : MenuNode) : bool :=
  match item with
  | Composite c => negb (isSubmenu c)
  | Action _ => false
  end.

(** The groups of a list whose projection is not empty. *)
Definition nonEmptyGroups (now : Common.CommandRegistry) (o : IOptions)
    (gs : list CompositeMenuNode) : nat :=
  length (filter (λ g, 0 < length (project now o g)) gs).

(** Neither the first nor the last item is a separator. *)
Definition noOuterSeparator (l : list IItemOptions) : Prop :=
  head l ≠ Some SeparatorItem ∧ last l ≠ Some SeparatorItem.

(** The command descriptors of a list, those inside its submenus included. *)
Fixpoint commandsOf (i : IItemOptions) : list string :=
  match i with
  | CommandItem c => [c]
  | SubmenuItem (mkMenu _ l) => concat (map commandsOf l)
  | SeparatorItem => []
  end.

Definition commandsIn (l : list IItemOptions) : list string :=
  concat (map commandsOf l).

(** The accelerators a registry holds for a command. *)
Definition accelerators (r : Phosphor.CommandRegistry) (i : string) : list (list string) :=
  kb_keys <$> filter (λ k, kb_command k = i) (_keyBindings r).

(** The action nodes below a composite, in the order a depth-first walk
    from left to right meets them. *)
Fixpoint actions (m : CompositeMenuNode) : list ActionMenuNode :=
  match m with
  | mkCompositeMenuNode _ _ _ cs =>
    concat (map (fun item =>
      match item with
      | Action a => [a]
      | Composite c => actions c
      end) cs)
  end.

(** The action nodes of a list whose command the registry resolves. *)
Definition resolved (w : World) (l : list ActionMenuNode) : list ActionMenuNode :=
  filter (λ a, is_Some (getCommand (commandRegistry w) (action_commandId a))) l.

(** The commands of the resolved action nodes of a list. *)
Definition resolvedIds (w : World) (l : list ActionMenuNode) : list string :=
  action_commandId <$> resolved w l.

(** [addPhosphorCommand] for each action of a list in turn, as long as no
    call has thrown. *)
Definition addAll (w : World) (acc : option Phosphor.CommandRegistry)
    (l : list ActionMenuNode) : option Phosphor.CommandRegistry :=
  fold_left (λ acc a, cmds ← acc; addPhosphorCommand w cmds a) l acc.

(** The one accelerator of a command: that of the first binding the
    keybinding collaborator returns, when it returns any. *)
Definition firstAccelerator (w : World) (i : string) : list (list string) :=
  match getKeybindingsForCommand (keybindingRegistry w) i with
  | binding :: _ => [acceleratorFor (keybindingRegistry w) binding]
  | [] => []
  end.

(** The commands of the action nodes below a composite that the registry of
    the widget reports visible, in depth-first order. *)
Definition visibleIds (now : Common.CommandRegistry) (o : IOptions)
    (m : CompositeMenuNode) : list string :=
  filter (λ i, Phosphor.isVisible now (commands o) i = true)
    (action_commandId <$> actions m).

(** Whether two separators stand next to each other. *)
Fixpoint adjacentSeparators (l : list IItemOptions) : bool :=
  match l with
  | [] => false
  | x :: t =>
    (is_separator x && match t with y :: _ => is_separator y | [] => false end)
    || adjacentSeparators t
  end.

(** The menus of the submenu entries of a list, those nested in them
    included. *)
Fixpoint menusOf (i : IItemOptions) : list Menu :=
  match i with
  | SubmenuItem (mkMenu t l) => mkMenu t l :: concat (map menusOf l)
  | CommandItem _ | SeparatorItem => []
  end.

Definition menusIn (l : list IItemOptions) : list Menu :=
  concat (map menusOf l).

(** The submenu nodes below a composite, at any depth. *)
Fixpoint submenuNodes (m : CompositeMenuNode) : list CompositeMenuNode :=
  match m with
  | mkCompositeMenuNode _ _ _ cs =>
    concat (map (fun item =>
      match item with
      | Action _ => []
      | Composite c => (if isSubmenu c then [c] else []) ++ submenuNodes c
      end) cs)
  end.

(** The composite nodes of a list of children. *)
Definition composites (cs : list MenuNode) : list CompositeMenuNode :=
  omap (λ n, match n with Composite c => Some c | Action _ => None end) cs.

(** The key bindings a walk over a list of actions adds: one per resolved
    action whose command has a binding. *)
Definition keyBindingsFor (w : World) (l : list ActionMenuNode)
  : list IKeyBindingOptions :=
  concat (map (λ a,
    (λ keys, mkIKeyBindingOptions (action_commandId a) keys ".p-Widget")
      <$> firstAccelerator w (action_commandId a)) (resolved w l)).

(** The call the shell is expected to get for the mode, after the widget is
    in the shell: [activateWidget] when there are no options, when the
    options have no [mode] property and when the property is ['activate'];
    [revealWidget] when it is ['reveal']; none when it is ['open'] and none
    when the property is there with the value [undefined]. *)
Definition modeCalls (o : option WidgetOpen.WidgetOpenerOptions)
    (w : WidgetOpen.BaseWidget) : list WidgetOpen.ShellCall :=
  match o with
  | None => [WidgetOpen.activateWidget_call (WidgetOpen.widget_id w)]
  | Some o =>
    match WidgetOpen.mode o with
    | None => [WidgetOpen.activateWidget_call (WidgetOpen.widget_id w)]
    | Some (WidgetOpen.mode_is WidgetOpen.mode_activate) =>
      [WidgetOpen.activateWidget_call (WidgetOpen.widget_id w)]
    | Some (WidgetOpen.mode_is WidgetOpen.mode_reveal) =>
      [WidgetOpen.revealWidget_call (WidgetOpen.widget_id w)]
    | Some (WidgetOpen.mode_is WidgetOpen.mode_open) => []
    | Some WidgetOpen.mode_undefined => []
    end
  end.

(** A widget whose model node has been changed by a contributor since the
    items were built: the node it points to has the contents of [m] now, the
    snapshot and the items are the ones the widget had. *)
Definition nodeBecomes (m : CompositeMenuNode) (widget : DynamicMenuWidget)
  : DynamicMenuWidget :=
  mkDynamicMenuWidget m (options widget) (super widget).

(** ** Concrete models and collaborator states *)

Module Examples.

(** A command registry in which the listed commands are registered; the
    flag of a command is the answer of [isVisible] for it, and no other id
    is visible. Everything is enabled and nothing is toggled. *)
Definition registry (cmds : list (string * bool)) : Common.CommandRegistry :=
  Common.mkCommandRegistry
    (list_to_map ((λ p, (p.1, mkCommandData None None)) <$> cmds))
    (λ _, true)
    (λ i, existsb (λ p, String.eqb p.1 i && p.2) cmds)
    (λ _, false).

(** A keybinding collaborator that returns the listed bindings, and whose
    accelerator of a binding is its keystroke alone. *)
Definition keybindings (bs : list Keybinding) : KeybindingRegistry :=
  mkKeybindingRegistry
    (λ i, filter (λ b, Common.command b = i) bs)
    (λ b, [keybinding b]).

Definition action (i : string) : MenuNode := Action (mkActionMenuNode i i).

Definition group (cs : list MenuNode) : CompositeMenuNode :=
  mkCompositeMenuNode "group" None false cs.

Definition submenu (l : string) (cs : list MenuNode) : CompositeMenuNode :=
  mkCompositeMenuNode l (Some l) true cs.

(** A world whose menu model is the same composite under every path. *)
Definition world (cmds : list (string * bool)) (bs : list Keybinding)
    (m : CompositeMenuNode) : World :=
  mkWorld (registry cmds) (keybindings bs) (λ _, m).

(** The options of a context menu over [m]; those of a menu bar have
    [isVisible] replaced. *)
Definition contextOptions (w : World) (m : CompositeMenuNode) : IOptions :=
  mkIOptions (default Phosphor.empty (createPhosporCommands w m)).

Definition menuBarOptions (w : World) (m : CompositeMenuNode) : IOptions :=
  mkIOptions (replace_isVisible (default Phosphor.empty (createPhosporCommands w m))).

(** Submenu("File")[Action(cmdNew)] under a root, with [cmdNew] registered
    and not visible. *)
Definition file : CompositeMenuNode := submenu "File" [action "cmdNew"].
Definition fileRoot : CompositeMenuNode := group [Composite file].
Definition fileWorld : World := world [("cmdNew", false)] [] fileRoot.

(** Group[Action(cmdA), Group[Action(cmdB)]] with both commands visible. *)
Definition nested : CompositeMenuNode :=
  group [action "cmdA"; Composite (group [action "cmdB"])].
Definition nestedWorld : World := world [("cmdA", true); ("cmdB", true)] [] nested.

(** Two sibling groups, the first made of two groups of its own. *)
Definition siblings : list CompositeMenuNode :=
  [group [Composite (group [action "cmdA"]); Composite (group [action "cmdB"])];
   group [action "cmdC"]].
Definition siblingsRoot : CompositeMenuNode := group (Composite <$> siblings).
Definition siblingsWorld : World :=
  world [("cmdA", true); ("cmdB", true); ("cmdC", true)] [] siblingsRoot.

(** A menu bar whose "File" menu holds an action for a command that is not
    registered. *)
Definition missingRoot : CompositeMenuNode :=
  group [Composite (submenu "File" [action "cmdMissing"])].
Definition missingWorld : World := world [] [] missingRoot.

(** One action whose command has two bindings, then one without any. *)
Definition boundRoot : CompositeMenuNode := group [action "cmdA"; action "cmdB"].
Definition boundWorld : World :=
  world [("cmdA", true); ("cmdB", true)]
    [mkKeybinding "cmdA" "ctrl+a"; mkKeybinding "cmdA" "alt+a"] boundRoot.

(** The menu bar with an "Edit" menu over one action, before and after the
    command of the action is registered and bound to a key. *)
Definition editRoot : CompositeMenuNode :=
  group [Composite (submenu "Edit" [action "cmdCopy"])].
Definition editWorldBefore : World := world [] [] editRoot.
Definition editWorldAfter : World :=
  world [("cmdCopy", true)] [mkKeybinding "cmdCopy" "ctrl+c"] editRoot.

(** A rendering of a URI, with the fragment after a hash sign when there is
    one. *)
Definition render : WidgetOpen.UriToString :=
  λ u, (WidgetOpen.scheme u ++ "://" ++ WidgetOpen.authority u ++ WidgetOpen.path u
        ++ (if String.eqb (WidgetOpen.query u) "" then "" else "?" ++ WidgetOpen.query u)
        ++ (if String.eqb (WidgetOpen.fragment u) "" then ""
            else "#" ++ WidgetOpen.fragment u))%string.

Definition readme (frag : string) : WidgetOpen.URI :=
  WidgetOpen.mkURI "file" "" "/home/README.md" "" frag.

Definition editorHandler : WidgetOpen.WidgetOpenHandler :=
  WidgetOpen.mkWidgetOpenHandler "code-editor-opener".

(** A manager that already holds the editor of the readme file, not yet
    attached to the shell, and whose factory makes no widget. *)
Definition readmeWidget : WidgetOpen.BaseWidget :=
  WidgetOpen.mkBaseWidget "code-editor-opener:file:///home/README.md".

Definition readmeOpened : WidgetOpen.State :=
  WidgetOpen.mkState
    (WidgetOpen.mkApplicationShell ∅ [])
    (WidgetOpen.mkWidgetManager
       {[ ("code-editor-opener", "file:///home/README.md") := readmeWidget ]}
       (λ _ _, None) []).

(** A context menu with two entries for one command, "Save" in two groups. *)
Definition twiceRoot : CompositeMenuNode :=
  group [Composite (group [action "cmdSave"]); Composite (group [action "cmdSave"])].
Definition twiceWorld : World := world [("cmdSave", true)] [] twiceRoot.

(** A manager without any widget, whose factory makes the editor of the
    code-editor opener for every key and fails for every other factory id. *)
Definition emptyManager : WidgetOpen.State :=
  WidgetOpen.mkState
    (WidgetOpen.mkApplicationShell ∅ [])
    (WidgetOpen.mkWidgetManager ∅
       (λ factoryId key,
          if String.eqb factoryId "code-editor-opener"
          then Some (WidgetOpen.mkBaseWidget (factoryId ++ ":" ++ key)%string)
          else None)
       []).

End Examples.

(** ** Properties of the projection *)

(** Induction over a composite with the hypothesis for every composite
    child. *)
Lemma CompositeMenuNode_children_ind (P : CompositeMenuNode → Prop) :
  (∀ i l s cs,
      Forall (λ n, match n with Composite c => P c | Action _ => True end) cs →
      P (mkCompositeMenuNode i l s cs)) →
  ∀ c, P c.
Proof.
  intros step. fix IH 1. intros [i l s cs]. apply step.
  induction cs as [|n cs IHcs]; constructor; [|exact IHcs].
  destruct n as [a|c]; [exact I|apply IH].
Qed.

Section ProjectionFacts.

Variable now : Common.CommandRegistry.
Variable o : IOptions.

Lemma buildSubMenus_fold items m cmds :
  buildSubMenus now o items m cmds
  = fold_left (projectChild now o cmds) (children m) items.
Proof. destruct m; reflexivity. Qed.

Lemma project_fold m :
  project now o m = fold_left (projectChild now o (commands o)) (children m) [].
Proof. apply buildSubMenus_fold. Qed.

(** The constructor call of the submenu branch builds exactly the menu the
    loop tests and pushes. *)
Lemma submenu_is_new_widget c :
  super (new_DynamicMenuWidget now c o) = mkMenu (initial_title c) (project now o c).
Proof.
  unfold new_DynamicMenuWidget, updateSubMenus, project; simpl.
  generalize (buildSubMenus now o [] c (commands o)); intros l.
  change (mkMenu (initial_title c) l) with (mkMenu (initial_title c) ([] ++ l)).
  generalize (@nil IItemOptions) as acc.
  induction l as [|x l IH]; intros acc; simpl.
  - by rewrite app_nil_r.
  - unfold addItem at 2; simpl. rewrite IH. by rewrite <- app_assoc.
Qed.

(** A turn of the loop leaves the output as it is when the child brings
    nothing, and otherwise appends what the child brings, after one
    separator when the child is a group and the output is not empty. *)
Lemma projectChild_contribution items item :
  projectChild now o (commands o) items item
  = match contribution now o item with
    | [] => items
    | sub =>
      items ++ (if is_group item && (0 <? length items) then [SeparatorItem] else [])
            ++ sub
    end.
Proof.
  unfold contribution.
  destruct item as [a|c]; simpl.
  - destruct (Phosphor.isVisible now (commands o) (action_commandId a)); simpl; done.
  - destruct (0 <? length (children c)); [|done].
    destruct (isSubmenu c); simpl.
    + destruct (buildSubMenus now o [] c (commands o)); simpl; done.
    + destruct (buildSubMenus now o [] c (commands o)) as [|x l]; simpl; [done|].
      destruct items; simpl; [done|]. by rewrite <- app_assoc.
Qed.

Lemma projectChild_prefix items item :
  ∃ suffix, projectChild now o (commands o) items item = items ++ suffix.
Proof.
  rewrite projectChild_contribution.
  destruct (contribution now o item).
  - exists []. by rewrite app_nil_r.
  - eexists. reflexivity.
Qed.

Lemma fold_projectChild_prefix cs items :
  ∃ suffix, fold_left (projectChild now o (commands o)) cs items = items ++ suffix.
Proof.
  revert items. induction cs as [|c cs IH]; intros items; simpl.
  - exists []. by rewrite app_nil_r.
  - destruct (projectChild_prefix items c) as [s1 ->].
    destruct (IH (items ++ s1)) as [s2 ->].
    exists (s1 ++ s2). by rewrite app_assoc.
Qed.

Lemma fold_projectChild_app cs1 cs2 items :
  fold_left (projectChild now o (commands o)) (cs1 ++ cs2) items
  = fold_left (projectChild now o (commands o)) cs2
      (fold_left (projectChild now o (commands o)) cs1 items).
Proof. apply fold_left_app. Qed.

Lemma projectChild_nil items item :
  projectChild now o (commands o) items item = [] ↔
  items = [] ∧ contribution now o item = [].
Proof.
  rewrite projectChild_contribution.
  destruct (contribution now o item) as [|x l].
  - split; [by intros ->|by intros [-> _]].
  - split; [|by intros [_ ?]]. intros E.
    apply app_eq_nil in E as [_ E]. apply app_eq_nil in E as [_ E]. done.
Qed.

Lemma fold_projectChild_nil cs items :
  fold_left (projectChild now o (commands o)) cs items = [] ↔
  items = [] ∧ Forall (λ item, contribution now o item = []) cs.
Proof.
  revert items. induction cs as [|c cs IH]; intros items; simpl.
  - split; [by intros ->|by intros [-> _]].
  - rewrite IH, projectChild_nil, Forall_cons. tauto.
Qed.

(** A composite child brings nothing exactly when its own projection is
    empty. *)
Lemma contribution_composite_nil c :
  contribution now o (Composite c) = [] ↔ project now o c = [].
Proof.
  unfold contribution, project; simpl.
  destruct (0 <? length (children c)) eqn:E.
  - destruct (isSubmenu c); simpl;
      destruct (buildSubMenus now o [] c (commands o)); simpl; done.
  - apply Nat.ltb_ge in E. rewrite buildSubMenus_fold.
    destruct (children c); simpl in *; [done|lia].
Qed.

Lemma contribution_action_nil a :
  contribution now o (Action a) = [] ↔
  Phosphor.isVisible now (commands o) (action_commandId a) = false.
Proof.
  unfold contribution; simpl.
  by destruct (Phosphor.isVisible now (commands o) (action_commandId a)).
Qed.

Lemma sum_list_zero (l : list nat) : sum_list l = 0 ↔ Forall (λ n, n = 0) l.
Proof.
  induction l as [|n l IH]; simpl.
  - split; [constructor|done].
  - rewrite Forall_cons, <- IH. lia.
Qed.

(** The projection is empty exactly when no action below is visible. *)
Lemma project_nil_iff m :
  project now o m = [] ↔ visibleLeaves now o m = 0.
Proof.
  induction m as [i l s cs IH] using CompositeMenuNode_children_ind.
  rewrite project_fold; simpl.
  rewrite fold_projectChild_nil, sum_list_zero, Forall_map.
  split.
  - intros [_ Hc]. pose proof (conj IH Hc) as HH. apply Forall_and in HH.
    eapply Forall_impl; [exact HH|].
    intros [a|c] [H1 H2]; simpl in *.
    + apply contribution_action_nil in H2. by rewrite H2.
    + apply H1. by apply contribution_composite_nil.
  - intros Hv. split; [done|].
    pose proof (conj IH Hv) as HH. apply Forall_and in HH.
    eapply Forall_impl; [exact HH|].
    intros [a|c] [H1 H2]; simpl in *.
    + apply contribution_action_nil.
      destruct (Phosphor.isVisible now (commands o) (action_commandId a)); done.
    + apply contribution_composite_nil. by apply H1.
Qed.

End ProjectionFacts.

(** C1. A composite below which no action is visible projects to the empty
    list; as a child it leaves the output of its parent exactly as if it
    were not there, so that neither a submenu entry nor a separator stands
    for it; and a composite made of such children only has no visible
    action either, so that it is pruned from its own parent in turn. *)
Theorem C1_empty_subtree_is_pruned now o c :
  visibleLeaves now o c = 0 →
  project now o c = []
  ∧ (∀ items i l s before after,
       buildSubMenus now o items
         (mkCompositeMenuNode i l s (before ++ Composite c :: after)) (commands o)
       = buildSubMenus now o items
           (mkCompositeMenuNode i l s (before ++ after)) (commands o))
  ∧ (∀ i l s cs,
       Forall (λ n, ∃ c', n = Composite c' ∧ visibleLeaves now o c' = 0) cs →
       visibleLeaves now o (mkCompositeMenuNode i l s cs) = 0
       ∧ project now o (mkCompositeMenuNode i l s cs) = []).
Proof.
  intros Hc. apply project_nil_iff in Hc as Hp.
  split; [exact Hp|]. split.
  - intros items i l s before after.
    rewrite !buildSubMenus_fold; cbn [children].
    rewrite !fold_projectChild_app; cbn [fold_left].
    rewrite projectChild_contribution.
    apply contribution_composite_nil in Hp. by rewrite Hp.
  - intros i l s cs Hcs.
    assert (visibleLeaves now o (mkCompositeMenuNode i l s cs) = 0) as Hz.
    { simpl. apply sum_list_zero, Forall_map.
      eapply Forall_impl; [exact Hcs|]. by intros n (c' & -> & ?). }
    split; [exact Hz|]. by apply project_nil_iff.
Qed.

Lemma C1_witness :
  visibleLeaves (commandRegistry Examples.fileWorld)
    (Examples.contextOptions Examples.fileWorld Examples.fileRoot) Examples.file = 0
  ∧ project (commandRegistry Examples.fileWorld)
      (Examples.contextOptions Examples.fileWorld Examples.fileRoot) Examples.fileRoot = [].
Proof.
  assert (visibleLeaves (commandRegistry Examples.fileWorld)
            (Examples.contextOptions Examples.fileWorld Examples.fileRoot)
            Examples.file = 0) as Hz by (vm_compute; reflexivity).
  split; [exact Hz|].
  destruct (C1_empty_subtree_is_pruned _ _ _ Hz) as (_ & _ & Hup).
  apply (Hup "group" None false [Composite Examples.file]).
  constructor; [|constructor]. exists Examples.file. split; [reflexivity|exact Hz].
Defined.

Section SeparatorFacts.

Variable now : Common.CommandRegistry.
Variable o : IOptions.

Lemma separators_app l1 l2 : separators (l1 ++ l2) = separators l1 + separators l2.
Proof. unfold separators. by rewrite filter_app, length_app. Qed.

(** What a group brings is its own projection. *)
Lemma contribution_group g :
  isSubmenu g = false → contribution now o (Composite g) = project now o g.
Proof.
  intros Hg. unfold contribution, project; simpl. rewrite Hg.
  destruct (0 <? length (children g)) eqn:E.
  - by destruct (buildSubMenus now o [] g (commands o)).
  - apply Nat.ltb_ge in E. rewrite buildSubMenus_fold.
    destruct (children g); simpl in *; [done|lia].
Qed.

(** What an action or a submenu brings is at most one item, and never a
    separator. *)
Lemma contribution_not_group item :
  is_group item = false →
  contribution now o item = []
  ∨ ∃ x, contribution now o item = [x] ∧ is_separator x = false.
Proof.
  destruct item as [a|c]; unfold contribution; simpl.
  - intros _. destruct (Phosphor.isVisible now (commands o) (action_commandId a));
      simpl; [right; by eexists|by left].
  - intros Hs. apply negb_false_iff in Hs. rewrite Hs.
    destruct (0 <? length (children c)); [|by left].
    destruct (buildSubMenus now o [] c (commands o)); simpl;
      [by left|right; by eexists].
Qed.

Lemma separators_groups gs items :
  Forall (λ g, isSubmenu g = false) gs →
  separators (fold_left (projectChild now o (commands o)) (Composite <$> gs) items)
  = separators items
    + sum_list (map (λ g, separators (project now o g)) gs)
    + (if 0 <? length items then nonEmptyGroups now o gs
       else nonEmptyGroups now o gs - 1).
Proof.
  intros Hgs. revert items.
  induction Hgs as [|g gs Hg Hgs IH]; intros items.
  - simpl. unfold nonEmptyGroups; simpl. destruct (0 <? length items); lia.
  - cbn [fmap list_fmap fold_left]. fold (fmap (M:=list) Composite gs).
    rewrite IH, projectChild_contribution, (contribution_group g Hg).
    cbn [is_group]. rewrite Hg. cbn [negb andb map sum_list].
    unfold nonEmptyGroups. rewrite filter_cons.
    destruct (project now o g) as [|x sub] eqn:E.
    + rewrite decide_False by (simpl; lia). simpl. lia.
    + rewrite decide_True by (simpl; lia).
      rewrite !separators_app, !length_app.
      cbn [length]. replace (0 <? length items + _) with true
        by (symmetry; apply Nat.ltb_lt; lia).
      destruct items as [|y items]; cbn [length Nat.ltb Nat.leb separators filter];
        simpl; lia.
Qed.

Lemma noOuterSeparator_step items sub sep :
  noOuterSeparator items → noOuterSeparator sub → sub ≠ [] →
  (items = [] → sep = []) →
  noOuterSeparator (items ++ sep ++ sub).
Proof.
  intros [Hh Hl] [Hh' Hl'] Hne Hsep. split.
  - destruct items as [|y items]; [|exact Hh].
    rewrite (Hsep eq_refl). exact Hh'.
  - rewrite app_assoc, last_app.
    destruct (last sub) eqn:E; [exact Hl'|].
    apply last_None in E. done.
Qed.

(** The projection of a composite neither starts nor ends with a
    separator. *)
Lemma project_noOuterSeparator m : noOuterSeparator (project now o m).
Proof.
  induction m as [i l s cs IH] using CompositeMenuNode_children_ind.
  rewrite project_fold; cbn [children].
  assert (noOuterSeparator []) as Hnil by (split; done).
  revert Hnil. generalize (@nil IItemOptions) as items.
  induction IH as [|n cs Hn _ IHcs]; intros items Hitems; [exact Hitems|].
  cbn [fold_left]. apply IHcs.
  rewrite projectChild_contribution.
  destruct (contribution now o n) as [|x sub] eqn:E; [exact Hitems|].
  apply noOuterSeparator_step; [exact Hitems| |done|].
  - destruct (is_group n) eqn:G.
    + destruct n as [a|c]; [done|]. apply negb_true_iff in G.
      rewrite (contribution_group c G) in E. rewrite <- E. exact Hn.
    + destruct (contribution_not_group n G) as [E'|(z & E' & Hz)];
        rewrite E in E'; [done|]. injection E' as -> ->.
      split; simpl; by destruct z.
  - intros ->. by rewrite andb_false_r.
Qed.

End SeparatorFacts.

(** C2, as the specification states it, fails: with
    G1 = Group[Group[Action(cmdA)], Group[Action(cmdB)]] and
    G2 = Group[Action(cmdC)] as the sibling groups, both are non-empty and
    the flattened output [cmdA, Separator, cmdB, Separator, cmdC] has two
    separators, not one. *)
Lemma C2_counterexample :
  ¬ (∀ now o gs i l s,
        Forall (λ g, isSubmenu g = false) gs →
        separators (project now o (mkCompositeMenuNode i l s (Composite <$> gs)))
        = nonEmptyGroups now o gs - 1).
Proof.
  intros claim.
  specialize (claim (commandRegistry Examples.siblingsWorld)
                (Examples.contextOptions Examples.siblingsWorld Examples.siblingsRoot)
                Examples.siblings "group" None false).
  assert (Forall (λ g, isSubmenu g = false) Examples.siblings) as Hg
    by (repeat constructor).
  specialize (claim Hg). vm_compute in claim. discriminate claim.
Qed.

(** C2, amended. In one turn of the loop a child that brings nothing leaves
    the output alone, and a child that brings something is appended, after
    exactly one separator when it is a group and the output so far is not
    empty, and after none otherwise; an action or a submenu never adds a
    separator. For sibling groups G1..Gn the separators of the flattened
    output are (number of non-empty groups - 1) plus the separators that the
    groups' own projections already contain. No projection starts or ends
    with a separator, and Group[Action(cmdA), Group[Action(cmdB)]] with both
    commands visible projects to [Command(cmdA), Separator, Command(cmdB)]. *)
Theorem C2_separators_between_groups now o gs i l s :
  Forall (λ g, isSubmenu g = false) gs →
  let out := project now o (mkCompositeMenuNode i l s (Composite <$> gs)) in
  (∀ items item,
     projectChild now o (commands o) items item
     = match contribution now o item with
       | [] => items
       | sub =>
         items ++ (if is_group item && (0 <? length items) then [SeparatorItem] else [])
               ++ sub
       end)
  ∧ (∀ items item,
       is_group item = false →
       separators (projectChild now o (commands o) items item) = separators items)
  ∧ separators out
    = (nonEmptyGroups now o gs - 1)
      + sum_list (map (λ g, separators (project now o g)) gs)
  ∧ noOuterSeparator out
  ∧ (∀ m, noOuterSeparator (project now o m))
  ∧ (∀ a b i1 l1 i2 l2,
       Phosphor.isVisible now (commands o) (action_commandId a) = true →
       Phosphor.isVisible now (commands o) (action_commandId b) = true →
       project now o
         (mkCompositeMenuNode i1 l1 false
            [Action a; Composite (mkCompositeMenuNode i2 l2 false [Action b])])
       = [CommandItem (action_commandId a); SeparatorItem;
          CommandItem (action_commandId b)]).
Proof.
  intros Hgs out. split; [apply projectChild_contribution|].
  split.
  { intros items item Hitem. rewrite projectChild_contribution.
    destruct (contribution_not_group now o item Hitem) as [->|(x & -> & Hx)]; [done|].
    rewrite Hitem. cbn [andb]. rewrite !separators_app.
    unfold separators at 2 3. cbn [filter length]. rewrite filter_cons.
    rewrite decide_False by (rewrite Hx; done). simpl. lia. }
  split.
  { subst out. rewrite project_fold; cbn [children].
    rewrite (separators_groups now o gs [] Hgs). simpl. lia. }
  split; [apply project_noOuterSeparator|].
  split; [apply project_noOuterSeparator|].
  intros a b i1 l1 i2 l2 Ha Hb.
  unfold project; simpl. rewrite Ha, Hb. reflexivity.
Qed.

Lemma C2_witness :
  Forall (λ g, isSubmenu g = false) Examples.siblings
  ∧ separators (project (commandRegistry Examples.siblingsWorld)
                  (Examples.contextOptions Examples.siblingsWorld Examples.siblingsRoot)
                  Examples.siblingsRoot) = 1 + (1 + 0)
  ∧ project (commandRegistry Examples.nestedWorld)
      (Examples.contextOptions Examples.nestedWorld Examples.nested) Examples.nested
    = [CommandItem "cmdA"; SeparatorItem; CommandItem "cmdB"].
Proof.
  assert (Forall (λ g, isSubmenu g = false) Examples.siblings) as Hg
    by (repeat constructor).
  split; [exact Hg|]. split.
  - destruct (C2_separators_between_groups
                (commandRegistry Examples.siblingsWorld)
                (Examples.contextOptions Examples.siblingsWorld Examples.siblingsRoot)
                Examples.siblings "group" None false Hg) as (_ & _ & Hcount & _).
    etransitivity; [exact Hcount|]. vm_compute. reflexivity.
  - destruct (C2_separators_between_groups
                (commandRegistry Examples.nestedWorld)
                (Examples.contextOptions Examples.nestedWorld Examples.nested)
                [] "group" None false (Forall_nil_2 _)) as (_ & _ & _ & _ & _ & Hscn).
    apply (Hscn (mkActionMenuNode "cmdA" "cmdA") (mkActionMenuNode "cmdB" "cmdB"));
      vm_compute; reflexivity.
Defined.

(** ** Properties of the command snapshot *)

Section SnapshotFacts.

Variable w : World.

Lemma getCommand_Some i :
  is_Some (getCommand (commandRegistry w) i)
  ↔ is_Some (registered (commandRegistry w) !! i).
Proof.
  unfold getCommand.
  destruct (registered (commandRegistry w) !! i); simpl; split;
    intros [x Hx]; by eauto.
Qed.

Lemma getCommand_id i command :
  getCommand (commandRegistry w) i = Some command → id command = i.
Proof.
  unfold getCommand.
  destruct (registered (commandRegistry w) !! i); simpl; [|done].
  by intros [= <-].
Qed.

(** The three outcomes of [addPhosphorCommand]. *)
Lemma addPhosphorCommand_unresolved cmds a :
  getCommand (commandRegistry w) (action_commandId a) = None →
  addPhosphorCommand w cmds a = Some cmds.
Proof. unfold addPhosphorCommand. by intros ->. Qed.

Lemma addPhosphorCommand_duplicate cmds a :
  is_Some (getCommand (commandRegistry w) (action_commandId a)) →
  is_Some (_commands cmds !! action_commandId a) →
  addPhosphorCommand w cmds a = None.
Proof.
  intros [command Hc] [x Hx]. unfold addPhosphorCommand. rewrite Hc.
  rewrite (getCommand_id _ _ Hc). unfold addCommand. by rewrite Hx.
Qed.

Lemma addPhosphorCommand_fresh cmds a command :
  getCommand (commandRegistry w) (action_commandId a) = Some command →
  _commands cmds !! action_commandId a = None →
  addPhosphorCommand w cmds a
  = Some (Phosphor.mkCommandRegistry
            (<[action_commandId a :=
                 mkICommandOptions (action_commandId a) (action_label a)
                   (iconClass command)]> (_commands cmds))
            (_keyBindings cmds
               ++ ((λ keys, mkIKeyBindingOptions (action_commandId a) keys ".p-Widget")
                     <$> firstAccelerator w (action_commandId a)))
            (isVisible_replaced cmds)).
Proof.
  intros Hc Hx. unfold addPhosphorCommand, firstAccelerator. rewrite Hc.
  rewrite (getCommand_id _ _ Hc). unfold addCommand. rewrite Hx. simpl.
  destruct (getKeybindingsForCommand (keybindingRegistry w) (action_commandId a));
    simpl; [|done].
  by rewrite app_nil_r; destruct cmds.
Qed.

Lemma addAll_None l : addAll w None l = None.
Proof. induction l as [|a l IH]; [done|exact IH]. Qed.

Lemma addAll_app acc l1 l2 : addAll w acc (l1 ++ l2) = addAll w (addAll w acc l1) l2.
Proof. apply fold_left_app. Qed.

Lemma addAll_bind acc l :
  (acc ≫= λ cmds, addAll w (Some cmds) l) = addAll w acc l.
Proof. destruct acc; simpl; [done|by rewrite addAll_None]. Qed.

(** The walk over the tree registers the actions in depth-first order. *)
Lemma addPhosphorCommands_actions m cmds :
  addPhosphorCommands w cmds m = addAll w (Some cmds) (actions m).
Proof.
  revert cmds.
  induction m as [i l s cs IH] using CompositeMenuNode_children_ind.
  intros cmds. cbn [addPhosphorCommands actions].
  generalize (Some cmds) as acc.
  induction IH as [|n cs Hn _ IHcs]; intros acc; [done|].
  cbn [fold_left map concat]. rewrite addAll_app, IHcs. f_equal.
  destruct n as [a|c]; [done|].
  rewrite <- addAll_bind. destruct acc; simpl; [apply Hn|done].
Qed.

Lemma resolvedIds_cons a l :
  resolvedIds w (a :: l)
  = if decide (is_Some (getCommand (commandRegistry w) (action_commandId a)))
    then action_commandId a :: resolvedIds w l else resolvedIds w l.
Proof. unfold resolvedIds, resolved. rewrite filter_cons. by case_decide. Qed.

Lemma accelerators_app_keys cmds k (F : list (list string)) b i :
  accelerators
    (Phosphor.mkCommandRegistry cmds
       (k ++ ((λ keys, mkIKeyBindingOptions i keys ".p-Widget") <$> F)) b) i
  = accelerators (Phosphor.mkCommandRegistry cmds k b) i ++ F.
Proof.
  unfold accelerators; simpl. rewrite filter_app, fmap_app. f_equal.
  induction F as [|x F IH]; [done|].
  rewrite fmap_cons, filter_cons. simpl. rewrite decide_True by done.
  by rewrite fmap_cons, IH.
Qed.

Lemma accelerators_app_other cmds k (F : list (list string)) b i j :
  i ≠ j →
  accelerators
    (Phosphor.mkCommandRegistry cmds
       (k ++ ((λ keys, mkIKeyBindingOptions i keys ".p-Widget") <$> F)) b) j
  = accelerators (Phosphor.mkCommandRegistry cmds k b) j.
Proof.
  intros Hij. unfold accelerators; simpl. rewrite filter_app, fmap_app.
  rewrite <- (app_nil_r (kb_keys <$> filter _ k)) at 2. f_equal.
  induction F as [|x F IH]; [done|].
  rewrite fmap_cons, filter_cons. simpl. by rewrite decide_False.
Qed.

(** What a walk that did not throw has done to the registry. *)
Lemma addAll_Some l cmds cmds' :
  addAll w (Some cmds) l = Some cmds' →
  isVisible_replaced cmds' = isVisible_replaced cmds
  ∧ NoDup (resolvedIds w l)
  ∧ (∀ i, i ∈ resolvedIds w l → _commands cmds !! i = None)
  ∧ (∀ i, is_Some (_commands cmds' !! i)
          ↔ is_Some (_commands cmds !! i) ∨ i ∈ resolvedIds w l)
  ∧ (∀ i o, _commands cmds' !! i = Some o →
            _commands cmds !! i = Some o ∨ closes_over o = i)
  ∧ (∀ i, accelerators cmds' i
          = accelerators cmds i
            ++ if decide (i ∈ resolvedIds w l) then firstAccelerator w i else []).
Proof.
  revert cmds. induction l as [|a l IH]; intros cmds.
  - intros [= <-]. change (resolvedIds w []) with (@nil string).
    split; [done|]. split; [constructor|]. split; [by intros i ?%elem_of_nil|].
    split; [intros i; rewrite elem_of_nil; tauto|].
    split; [by left|]. intros i. rewrite decide_False by apply not_elem_of_nil.
    by rewrite app_nil_r.
  - unfold addAll. cbn [fold_left mbind option_bind]. fold (addAll w).
    rewrite resolvedIds_cons.
    destruct (getCommand (commandRegistry w) (action_commandId a))
      as [command|] eqn:Hc.
    + rewrite decide_True by eauto.
      destruct (_commands cmds !! action_commandId a) as [x|] eqn:Hx.
      { rewrite addPhosphorCommand_duplicate by eauto.
        change (fold_left _ l None) with (addAll w None l).
        by rewrite addAll_None. }
      rewrite (addPhosphorCommand_fresh _ _ _ Hc Hx).
      change (fold_left _ l ?x) with (addAll w x l).
      intros Hl. apply IH in Hl as (Hr & Hnd & Hfresh & Hdom & Hself & Hacc).
      simpl in *.
      assert (action_commandId a ∉ resolvedIds w l) as Hnotin.
      { intros Hin. specialize (Hfresh _ Hin). by rewrite lookup_insert_eq in Hfresh. }
      split; [exact Hr|]. split; [by constructor|]. split.
      { intros i [->|Hin]%elem_of_cons; [exact Hx|].
        specialize (Hfresh _ Hin).
        destruct (decide (action_commandId a = i)) as [<-|Hne];
          [by rewrite lookup_insert_eq in Hfresh|].
        by rewrite lookup_insert_ne in Hfresh. }
      split.
      { intros i. rewrite Hdom, elem_of_cons.
        destruct (decide (action_commandId a = i)) as [<-|Hne].
        - rewrite lookup_insert_eq, Hx. split; [intros _; right; by left|eauto].
        - rewrite lookup_insert_ne by done. split; [|intros [?|[?|?]]; by eauto].
          intros [?|?]; by eauto. }
      split.
      { intros i o Hi. destruct (Hself _ _ Hi) as [Hin|?]; [|by right].
        destruct (decide (action_commandId a = i)) as [<-|Hne].
        - rewrite lookup_insert_eq in Hin. injection Hin as <-. by right.
        - rewrite lookup_insert_ne in Hin by done. by left. }
      intros i. rewrite Hacc.
      destruct (decide (action_commandId a = i)) as [<-|Hne].
      * rewrite accelerators_app_keys.
        rewrite (decide_False (P:=(_ ∈ resolvedIds w l))) by done.
        rewrite decide_True by (by left). rewrite app_nil_r. by destruct cmds.
      * rewrite accelerators_app_other by done.
        f_equal.
        destruct (decide (i ∈ resolvedIds w l)) as [Hin|Hnin].
        -- rewrite decide_True; [done|by right].
        -- rewrite decide_False; [done|].
           intros [->|?]%elem_of_cons; done.
    + rewrite decide_False by (by intros [? ?]).
      rewrite (addPhosphorCommand_unresolved _ _ Hc).
      change (fold_left _ l ?x) with (addAll w x l). apply IH.
Qed.

(** The walk does not throw when no two resolved actions share a command
    and none of their commands is registered yet. *)
Lemma addAll_is_Some l cmds :
  NoDup (resolvedIds w l) →
  (∀ i, i ∈ resolvedIds w l → _commands cmds !! i = None) →
  is_Some (addAll w (Some cmds) l).
Proof.
  revert cmds. induction l as [|a l IH]; intros cmds; [by eauto|].
  rewrite resolvedIds_cons.
  unfold addAll. cbn [fold_left mbind option_bind]. fold (addAll w).
  destruct (getCommand (commandRegistry w) (action_commandId a))
    as [command|] eqn:Hc.
  - rewrite decide_True by eauto. intros [Hnotin Hnd]%NoDup_cons Hfresh.
    rewrite (addPhosphorCommand_fresh _ _ _ Hc) by (apply Hfresh; by left).
    change (fold_left _ l ?x) with (addAll w x l). apply IH; [exact Hnd|].
    intros i Hin. simpl. rewrite lookup_insert_ne by (by intros <-).
    apply Hfresh. by right.
  - rewrite decide_False by (by intros [? ?]). intros Hnd Hfresh.
    rewrite (addPhosphorCommand_unresolved _ _ Hc).
    change (fold_left _ l ?x) with (addAll w x l). by apply IH.
Qed.

End SnapshotFacts.

Lemma createPhosporCommands_Some w m ctx :
  createPhosporCommands w m = Some ctx →
  isVisible_replaced ctx = false
  ∧ (∀ i, is_Some (_commands ctx !! i) ↔ i ∈ resolvedIds w (actions m))
  ∧ (∀ i o, _commands ctx !! i = Some o → closes_over o = i)
  ∧ (∀ i, accelerators ctx i
          = if decide (i ∈ resolvedIds w (actions m))
            then firstAccelerator w i else []).
Proof.
  unfold createPhosporCommands. rewrite addPhosphorCommands_actions.
  intros (Hr & _ & _ & Hdom & Hself & Hacc)%addAll_Some.
  split; [exact Hr|]. split.
  { intros i. rewrite Hdom. simpl. rewrite lookup_empty.
    split; [intros [[? [=]]|?]; done|by right]. }
  split.
  { intros i o Hi. destruct (Hself _ _ Hi) as [Hin|?]; [|done].
    simpl in Hin. by rewrite lookup_empty in Hin. }
  intros i. by rewrite Hacc.
Qed.

(** Every command the projection emits was reported visible by the
    registry of the widget, however deep in a submenu it sits. *)
Lemma commandsIn_project now o m i :
  i ∈ commandsIn (project now o m) → Phosphor.isVisible now (commands o) i = true.
Proof.
  induction m as [n l s cs IH] using CompositeMenuNode_children_ind.
  rewrite project_fold; cbn [children].
  assert (∀ items,
            i ∈ commandsIn (fold_left (projectChild now o (commands o)) cs items) →
            i ∈ commandsIn items ∨ Phosphor.isVisible now (commands o) i = true) as H.
  { induction IH as [|c cs Hc _ IHcs]; intros items; [by left|].
    cbn [fold_left]. intros [Hin|?]%IHcs; [|by right].
    revert Hin. rewrite projectChild_contribution.
    destruct (contribution now o c) as [|x sub] eqn:E; [by left|].
    unfold commandsIn. rewrite !map_app, !concat_app, !elem_of_app.
    intros [?|[Hsep|Hsub]]; [by left| |].
    - by destruct (is_group c && (0 <? length items)); apply elem_of_nil in Hsep.
    - right. rewrite <- E in Hsub. clear E. revert Hsub.
      destruct c as [a|c]; unfold contribution; simpl.
      + destruct (Phosphor.isVisible now (commands o) (action_commandId a)) eqn:V;
          simpl; [|by intros ?%elem_of_nil].
        by intros ->%list_elem_of_singleton.
      + destruct (0 <? length (children c)); [|by intros ?%elem_of_nil].
        destruct (isSubmenu c); simpl.
        * destruct (buildSubMenus now o [] c (commands o)) eqn:B; simpl;
            [by intros ?%elem_of_nil|].
          rewrite app_nil_r. intros Hin. apply Hc. unfold project, commandsIn.
          by rewrite B.
        * destruct (buildSubMenus now o [] c (commands o)) eqn:B; simpl;
            [by intros ?%elem_of_nil|].
          intros Hin. apply Hc. unfold project, commandsIn. by rewrite B. }
  intros [Hin|?]%H; [|done]. by apply elem_of_nil in Hin.
Qed.

(** Under a snapshot that was built while the command of an action did not
    resolve, and whose [isVisible] was not replaced, no command descriptor
    for that command appears in any projection, at any depth and at any
    later instant. *)
Lemma unresolved_command_context w m ctx now i m' :
  createPhosporCommands w m = Some ctx →
  getCommand (commandRegistry w) i = None →
  i ∉ commandsIn (project now (mkIOptions ctx) m').
Proof.
  intros Hctx Hnone Hin. apply commandsIn_project in Hin.
  destruct (createPhosporCommands_Some _ _ _ Hctx) as (Hr & Hdom & _ & _).
  unfold Phosphor.isVisible in Hin; simpl in Hin. rewrite Hr in Hin.
  destruct (_commands ctx !! i) as [e|] eqn:E; [|done].
  assert (i ∈ resolvedIds w (actions m)) as Hres by (apply Hdom; eauto).
  unfold resolvedIds, resolved in Hres.
  apply list_elem_of_fmap in Hres as (a & -> & Ha).
  apply list_elem_of_filter in Ha as [[c Hc] _]. congruence.
Qed.

(** Under the menu-bar snapshot every action is emitted, whether its
    command is registered in the snapshot or not. *)
Lemma menu_bar_emits_every_action now cmds items a :
  projectChild now (mkIOptions (replace_isVisible cmds)) (replace_isVisible cmds)
    items (Action a)
  = items ++ [CommandItem (action_commandId a)].
Proof. reflexivity. Qed.

(** C4. The command "cmdMissing" does not resolve, and nothing is registered
    for it in the snapshot; the context menu over the model leaves its action
    out, but the "File" menu of the menu bar holds a command descriptor for
    it. *)
Theorem C4_menu_bar_emits_unresolved_command :
  getCommand (commandRegistry Examples.missingWorld) "cmdMissing" = None
  ∧ (λ ctx, _commands ctx !! "cmdMissing")
      <$> createPhosporCommands Examples.missingWorld Examples.missingRoot
    = Some None
  ∧ (λ widget, commandsIn (items (super widget)))
      <$> createContextMenu Examples.missingWorld []
    = Some []
  ∧ (λ bar, (λ widget, items (super widget)) <$> menus bar)
      <$> createMenuBar Examples.missingWorld
    = Some [[CommandItem "cmdMissing"]].
Proof. vm_compute. done. Qed.

(** C5. In a snapshot that was built without a throw, the registered
    commands are the resolved commands of the action nodes of the model, and
    for each of them: when the keybinding collaborator returns B1 first, the
    snapshot holds one accelerator for the command, acceleratorFor(B1); when
    it returns no binding, the snapshot holds none. The snapshot is built
    without a throw whenever no two resolved actions share a command. *)
Theorem C5_first_keybinding_only w m cmds :
  createPhosporCommands w m = Some cmds →
  (∀ i, is_Some (_commands cmds !! i)
        ↔ i ∈ action_commandId <$> resolved w (actions m))
  ∧ (∀ i, is_Some (_commands cmds !! i) →
          match getKeybindingsForCommand (keybindingRegistry w) i with
          | B1 :: _ => accelerators cmds i = [acceleratorFor (keybindingRegistry w) B1]
          | [] => accelerators cmds i = []
          end)
  ∧ (∀ i, _commands cmds !! i = None → accelerators cmds i = [])
  ∧ (∀ w' m', NoDup (action_commandId <$> resolved w' (actions m')) →
              is_Some (createPhosporCommands w' m')).
Proof.
  intros (_ & Hdom & _ & Hacc)%createPhosporCommands_Some.
  split; [exact Hdom|]. split.
  { intros i Hi. apply Hdom in Hi. rewrite Hacc, decide_True by done.
    unfold firstAccelerator.
    by destruct (getKeybindingsForCommand (keybindingRegistry w) i). }
  split.
  { intros i Hi. rewrite Hacc, decide_False; [done|].
    intros Hin%Hdom. rewrite Hi in Hin. by destruct Hin. }
  intros w' m' Hnd. unfold createPhosporCommands.
  rewrite addPhosphorCommands_actions. apply addAll_is_Some; [exact Hnd|done].
Qed.

Lemma C5_witness :
  accelerators
    (commands (Examples.contextOptions Examples.boundWorld Examples.boundRoot)) "cmdA"
  = [["ctrl+a"]]
  ∧ accelerators
      (commands (Examples.contextOptions Examples.boundWorld Examples.boundRoot)) "cmdB"
    = [].
Proof.
  assert (createPhosporCommands Examples.boundWorld Examples.boundRoot
          = Some (commands (Examples.contextOptions Examples.boundWorld
                              Examples.boundRoot)))
    as Hctx by (vm_compute; reflexivity).
  destruct (C5_first_keybinding_only _ _ _ Hctx) as (Hdom & Hacc & _ & _).
  split.
  - apply (Hacc "cmdA"). apply Hdom. vm_compute. by left.
  - apply (Hacc "cmdB"). apply Hdom. vm_compute. right. by left.
Defined.

(** ** Properties of the view *)

Lemma addItems_items t acc l :
  fold_left (λ parent item, addItem item parent) l (mkMenu t acc) = mkMenu t (acc ++ l).
Proof.
  revert acc. induction l as [|x l IH]; intros acc; simpl.
  - by rewrite app_nil_r.
  - unfold addItem at 2; simpl. rewrite IH. by rewrite <- app_assoc.
Qed.

Lemma updateSubMenus_items now o parent m :
  updateSubMenus now o parent m (commands o)
  = mkMenu (title parent) (items parent ++ project now o m).
Proof. unfold updateSubMenus. destruct parent as [t acc]. apply addItems_items. Qed.

Lemma aboutToShow_super now widget :
  super (aboutToShow now widget)
  = mkMenu (title (super widget)) (project now (options widget) (menu widget)).
Proof. unfold aboutToShow; simpl. by rewrite updateSubMenus_items. Qed.

Lemma createMenuBar_options w bar widget :
  createMenuBar w = Some bar → widget ∈ menus bar →
  Some (commands (options widget))
  = replace_isVisible <$> createPhosporCommands w (menuProvider w MAIN_MENU_BAR).
Proof.
  unfold createMenuBar.
  destruct (createPhosporCommands w (menuProvider w MAIN_MENU_BAR)) as [cmds|];
    simpl; [|done].
  intros [= <-]; simpl.
  assert (∀ acc : list DynamicMenuWidget,
            (∀ x, x ∈ acc → commands (options x) = replace_isVisible cmds) →
            widget ∈ fold_left (λ bar m,
                       match m with
                       | Composite c =>
                         bar ++ [new_DynamicMenuWidget (commandRegistry w) c
                                   (mkIOptions (replace_isVisible cmds))]
                       | Action _ => bar
                       end) (children (menuProvider w MAIN_MENU_BAR)) acc →
            commands (options widget) = replace_isVisible cmds) as H.
  { induction (children (menuProvider w MAIN_MENU_BAR)) as [|n cs IH];
      intros acc Hacc; simpl; [by apply Hacc|].
    apply IH. destruct n as [a|c]; [exact Hacc|].
    intros x [?| ->%list_elem_of_singleton]%elem_of_app; [by apply Hacc|done]. }
  intros Hin. f_equal. eapply H; [|exact Hin]. by intros x ?%elem_of_nil.
Qed.

(** C6, as the specification states it, fails: after [aboutToShow] the view
    is not the one a rebuilt snapshot would give. A context menu made while
    "cmdCopy" was not registered still shows nothing once the command is
    registered and visible, and the "Edit" menu of the menu bar still has no
    accelerator for the command once a key is bound to it. *)
Lemma C6_counterexample :
  ¬ (∀ w0 w1 path widget widget',
        menuProvider w0 = menuProvider w1 →
        createContextMenu w0 path = Some widget →
        createContextMenu w1 path = Some widget' →
        aboutToShow (commandRegistry w1) widget = widget')
  ∧ ¬ (∀ w0 w1 bar bar' i,
          menuProvider w0 = menuProvider w1 →
          createMenuBar w0 = Some bar →
          createMenuBar w1 = Some bar' →
          menus (_openChildMenu (commandRegistry w1)
                   (mkDynamicMenuBarWidget (bar_id bar) (menus bar) (Some i))) !! i
          = menus bar' !! i).
Proof.
  split.
  - intros claim.
    specialize (claim Examples.editWorldBefore Examples.editWorldAfter []
                  (new_DynamicMenuWidget (commandRegistry Examples.editWorldBefore)
                     Examples.editRoot
                     (Examples.contextOptions Examples.editWorldBefore Examples.editRoot))
                  (new_DynamicMenuWidget (commandRegistry Examples.editWorldAfter)
                     Examples.editRoot
                     (Examples.contextOptions Examples.editWorldAfter Examples.editRoot))
                  eq_refl eq_refl eq_refl).
    apply (f_equal (λ widget, length (items (super widget)))) in claim.
    vm_compute in claim. discriminate claim.
  - intros claim.
    destruct (createMenuBar Examples.editWorldBefore) as [bar|] eqn:E0;
      [|by vm_compute in E0].
    destruct (createMenuBar Examples.editWorldAfter) as [bar'|] eqn:E1;
      [|by vm_compute in E1].
    specialize (claim Examples.editWorldBefore Examples.editWorldAfter bar bar' 0
                  eq_refl E0 E1).
    apply (f_equal (fmap (λ widget,
             accelerators (commands (options widget)) "cmdCopy"))) in claim.
    revert claim. injection E0 as <-. injection E1 as <-.
    vm_compute. discriminate.
Qed.

(** C6, amended. [aboutToShow] keeps the model node and the command snapshot
    of the widget, which is the snapshot built when the menu was created,
    throws the items of the widget away and puts in their place the
    projection of the node as it is now under that snapshot, with the
    visibility of its commands asked at that instant; the hook of the menu
    bar does this for the active menu and for no other. *)
Theorem C6_about_to_show_reprojects_with_kept_snapshot now widget :
  let shown := aboutToShow now widget in
  menu shown = menu widget
  ∧ options shown = options widget
  ∧ super shown
    = mkMenu (title (super widget)) (project now (options widget) (menu widget))
  ∧ (∀ w0 path,
       createContextMenu w0 path = Some widget →
       createPhosporCommands w0 (menuProvider w0 path)
       = Some (commands (options shown)))
  ∧ (∀ w0 bar,
       createMenuBar w0 = Some bar → widget ∈ menus bar →
       replace_isVisible <$> createPhosporCommands w0 (menuProvider w0 MAIN_MENU_BAR)
       = Some (commands (options shown)))
  ∧ (∀ bar i,
       activeIndex bar = Some i → menus bar !! i = Some widget →
       menus (_openChildMenu now bar) = <[i := shown]> (menus bar)).
Proof.
  intros shown. split; [done|]. split; [done|].
  split; [apply aboutToShow_super|]. split.
  { intros w0 path. unfold createContextMenu.
    destruct (createPhosporCommands w0 (menuProvider w0 path)); simpl; [|done].
    by intros [= <-]. }
  split.
  { intros w0 bar Hbar Hin. symmetry.
    exact (createMenuBar_options _ _ _ Hbar Hin). }
  intros bar i Hi Hw. unfold _openChildMenu. by rewrite Hi, Hw.
Qed.

Lemma C6_witness :
  (λ widget, items (super (aboutToShow (commandRegistry Examples.editWorldAfter) widget)))
    <$> createContextMenu Examples.editWorldBefore []
  = Some []
  ∧ (λ widget, items (super widget)) <$> createContextMenu Examples.editWorldAfter []
    = Some [SubmenuItem (mkMenu "Edit" [CommandItem "cmdCopy"])].
Proof.
  split; [|vm_compute; reflexivity].
  destruct (createContextMenu Examples.editWorldBefore []) as [widget|] eqn:E;
    [|by vm_compute in E].
  change (Some (items (super (aboutToShow (commandRegistry Examples.editWorldAfter)
                                widget))) = Some []).
  destruct (C6_about_to_show_reprojects_with_kept_snapshot
              (commandRegistry Examples.editWorldAfter) widget)
    as (_ & _ & Hs & _).
  rewrite Hs. injection E as <-. vm_compute. reflexivity.
Defined.

(** C9. Running the projection again on the same model and snapshot gives
    the same descriptors in the same order: a second [aboutToShow] at the
    same instant leaves the widget as the first one left it, showing a
    widget right after its construction changes nothing, and in both cases
    the model and the snapshot are what they were. *)
Theorem C9_projection_is_repeatable now widget m o :
  aboutToShow now (aboutToShow now widget) = aboutToShow now widget
  ∧ aboutToShow now (new_DynamicMenuWidget now m o) = new_DynamicMenuWidget now m o
  ∧ items (super (aboutToShow now widget)) = project now (options widget) (menu widget)
  ∧ items (super (new_DynamicMenuWidget now m o)) = project now o m
  ∧ menu (aboutToShow now widget) = menu widget
  ∧ options (aboutToShow now widget) = options widget.
Proof.
  assert (∀ x, aboutToShow now x
               = mkDynamicMenuWidget (menu x) (options x)
                   (mkMenu (title (super x)) (project now (options x) (menu x)))) as H.
  { intros x. unfold aboutToShow. by rewrite updateSubMenus_items. }
  split; [by rewrite !H|]. split.
  { rewrite H. unfold new_DynamicMenuWidget. by rewrite updateSubMenus_items. }
  split; [by rewrite H|]. split; [by rewrite submenu_is_new_widget|done].
Qed.

(** ** Properties of opening and closing *)

Section LifecycleFacts.

Import Lifecycle.

(** A slot that is still connected after an emission was connected before
    it and was not among the slots the emission called. *)
Lemma emit_to_slots rs s c :
  c ∈ aboutToClose (emit_to rs s) →
  c ∈ aboutToClose s ∧ cb_id c ∉ map cb_id rs.
Proof.
  revert s. induction rs as [|cb rs IH]; intros s; simpl.
  - intros Hin. split; [exact Hin|apply not_elem_of_nil].
  - intros [Hin Hrs]%IH. rewrite not_elem_of_cons.
    unfold connected in Hin. case_bool_decide as Hc; simpl in Hin.
    + apply list_elem_of_filter in Hin as [Hne Hin]. done.
    + split; [exact Hin|]. split; [|exact Hrs]. intros Heq. apply Hc.
      rewrite <- Heq. apply list_elem_of_fmap. by exists c.
Qed.

(** Every slot disconnects itself when it is called, so an emission leaves
    no slot connected. *)
Lemma emit_slots s : aboutToClose (emit s) = [].
Proof.
  apply elem_of_nil_inv. intros c [Hin Hn]%emit_to_slots.
  apply Hn, list_elem_of_fmap. by exists c.
Qed.

Lemma open_attached s : isAttached (open s) = true.
Proof.
  unfold open, super_open, connect.
  destruct (connected _ _); simpl; destruct (isAttached s) eqn:E; simpl; done.
Qed.

(** A widget that is not attached has no slot connected. *)
Lemma closed_has_no_slot s :
  reachable s → isAttached s = false → aboutToClose s = [].
Proof.
  induction 1 as [active n|s s' Hs IH Hstep]; [done|].
  destruct Hstep as [s|s|e s]; simpl.
  - intros Hopen. by rewrite open_attached in Hopen.
  - unfold close. destruct (isAttached s) eqn:E; simpl; [|by intros _; apply IH].
    intros _. apply emit_slots.
  - exact IH.
Qed.

Lemma open_closed s :
  aboutToClose s = [] → isAttached s = false →
  open s = mkState (node s) (node s) true
             [mkCallback (closures s) (activeElement s)] (S (closures s)) (focusCalls s).
Proof.
  intros Hslots Hclosed. unfold open, super_open, connect, connected. simpl.
  rewrite Hslots. simpl. by rewrite Hclosed.
Qed.

Lemma close_single s cb :
  isAttached s = true → aboutToClose s = [cb] →
  close s = mkState (previouslyActive cb) (node s) false [] (closures s)
              (focusCalls s ++ [previouslyActive cb]).
Proof.
  intros Hatt Hslots. unfold close, emit. rewrite Hatt, Hslots.
  unfold emit_to, connected. rewrite Hslots. simpl.
  rewrite bool_decide_eq_true_2 by apply list_elem_of_singleton, eq_refl.
  unfold run, disconnect. simpl. rewrite Hslots.
  by rewrite filter_cons, decide_False by (intros Hne; by apply Hne).
Qed.

Lemma move_focus_fold es s :
  let s' := fold_left (λ s e, move_focus e s) es s in
  node s' = node s ∧ isAttached s' = isAttached s
  ∧ aboutToClose s' = aboutToClose s ∧ closures s' = closures s
  ∧ focusCalls s' = focusCalls s.
Proof.
  revert s. induction es as [|e es IH]; intros s; simpl; [done|].
  destruct (IH (move_focus e s)) as (-> & -> & -> & -> & ->). done.
Qed.

End LifecycleFacts.

(** C7. From a widget that is closed: [open] hooks one callback that holds
    the element active at that moment; whatever the focus does while the menu
    is open, closing it calls [focus()] on that element once and on nothing
    else, and leaves no callback connected; closing again changes nothing. *)
Theorem C7_focus_restored_once s es :
  Lifecycle.reachable s → Lifecycle.isAttached s = false →
  let opened := Lifecycle.open s in
  let closed :=
    Lifecycle.close (fold_left (λ s e, Lifecycle.move_focus e s) es opened) in
  Lifecycle.aboutToClose opened
  = [Lifecycle.mkCallback (Lifecycle.closures s) (Lifecycle.activeElement s)]
  ∧ Lifecycle.isAttached opened = true
  ∧ Lifecycle.focusCalls closed
    = Lifecycle.focusCalls s ++ [Lifecycle.activeElement s]
  ∧ Lifecycle.activeElement closed = Lifecycle.activeElement s
  ∧ Lifecycle.aboutToClose closed = []
  ∧ Lifecycle.isAttached closed = false
  ∧ Lifecycle.close closed = closed.
Proof.
  intros Hs Hclosed opened closed.
  pose proof (closed_has_no_slot s Hs Hclosed) as Hslots.
  assert (opened = Lifecycle.mkState (Lifecycle.node s) (Lifecycle.node s) true
            [Lifecycle.mkCallback (Lifecycle.closures s) (Lifecycle.activeElement s)]
            (S (Lifecycle.closures s)) (Lifecycle.focusCalls s)) as Hopen
    by (by apply open_closed).
  assert (Lifecycle.aboutToClose opened
          = [Lifecycle.mkCallback (Lifecycle.closures s) (Lifecycle.activeElement s)])
    as Hopened by (by rewrite Hopen).
  assert (Lifecycle.isAttached opened = true) as Hatt by (by rewrite Hopen).
  assert (Lifecycle.focusCalls opened = Lifecycle.focusCalls s) as Hcalls
    by (by rewrite Hopen).
  split; [exact Hopened|]. split; [exact Hatt|].
  destruct (move_focus_fold es opened) as (_ & Ha & Hsl & _ & Hf).
  subst closed. rewrite (close_single _ _ (eq_trans Ha Hatt) (eq_trans Hsl Hopened)).
  simpl. by rewrite Hf, Hcalls.
Qed.

Lemma C7_witness :
  Lifecycle.focusCalls (Lifecycle.close (Lifecycle.open (Lifecycle.created 7 9))) = [7]
  ∧ Lifecycle.focusCalls
      (Lifecycle.close (Lifecycle.close (Lifecycle.open (Lifecycle.created 7 9)))) = [7].
Proof.
  destruct (C7_focus_restored_once (Lifecycle.created 7 9) []
              (Lifecycle.reachable_created 7 9) eq_refl)
    as (_ & _ & Hcalls & _ & _ & _ & Hagain).
  simpl in Hagain. rewrite Hagain. split; exact Hcalls.
Defined.

(** ** Properties of the open handler *)

Lemma manager_getOrCreateWidget_stored m factoryId key w m' :
  WidgetOpen.manager_getOrCreateWidget m factoryId key = Some (w, m') →
  WidgetOpen.widgets m' !! (factoryId, key) = Some w.
Proof.
  unfold WidgetOpen.manager_getOrCreateWidget.
  destruct (WidgetOpen.widgets m !! (factoryId, key)) as [w0|] eqn:E.
  - by intros [= <- <-].
  - destruct (WidgetOpen.factory m factoryId key) as [w1|]; simpl; [|done].
    intros [= <- <-]. simpl. apply lookup_insert_eq.
Qed.

Lemma manager_getOrCreateWidget_existing m factoryId key w :
  WidgetOpen.widgets m !! (factoryId, key) = Some w →
  WidgetOpen.manager_getOrCreateWidget m factoryId key = Some (w, m).
Proof. unfold WidgetOpen.manager_getOrCreateWidget. by intros ->. Qed.


(** C8. When the manager holds a widget under the key of the URI,
    [open(uri, {mode: 'reveal'})] resolves to that widget, leaves the manager
    as it was, so that nothing was created or announced, and the calls the
    shell receives are [addWidget] if the widget was not attached, then
    [revealWidget] with the id of the widget, and no [activateWidget]. *)
Theorem C8_reveal_reuses_existing_widget `{WidgetOpen.UriToString}
    this uri o s w :
  WidgetOpen.widgets (WidgetOpen.widgetManager s)
    !! (WidgetOpen.id this, WidgetOpen.createWidgetOptions uri (Some o)) = Some w →
  WidgetOpen.mode o = Some (WidgetOpen.mode_is WidgetOpen.mode_reveal) →
  ∃ s',
    WidgetOpen.open this uri (Some o) s = Some (w, s')
    ∧ WidgetOpen.widgetManager s' = WidgetOpen.widgetManager s
    ∧ WidgetOpen.onCreated this s' = WidgetOpen.onCreated this s
    ∧ WidgetOpen.calls (WidgetOpen.shell s')
      = WidgetOpen.calls (WidgetOpen.shell s)
        ++ (if WidgetOpen.isAttached (WidgetOpen.shell s) w then []
            else [WidgetOpen.addWidget_call w
                    (default (WidgetOpen.mkWidgetOptions "main")
                       (WidgetOpen.widgetOptions o))])
        ++ [WidgetOpen.revealWidget_call (WidgetOpen.widget_id w)]
    ∧ (∀ i, WidgetOpen.activateWidget_call i
            ∉ drop (length (WidgetOpen.calls (WidgetOpen.shell s)))
                (WidgetOpen.calls (WidgetOpen.shell s'))).
Proof.
  intros Hw Hmode.
  unfold WidgetOpen.open, WidgetOpen.getOrCreateWidget.
  rewrite (manager_getOrCreateWidget_existing _ _ _ _ Hw). simpl.
  eexists. split; [reflexivity|].
  unfold WidgetOpen.doOpen. simpl. rewrite Hmode. simpl.
  split; [done|]. split; [done|].
  assert (∀ (l extra : list WidgetOpen.ShellCall), drop (length l) (l ++ extra) = extra)
    as Hdrop by (intros l extra; by rewrite drop_app_length).
  destruct (WidgetOpen.isAttached (WidgetOpen.shell s) w); simpl.
  - split; [done|]. intros i. rewrite Hdrop.
    by intros [=]%list_elem_of_singleton.
  - rewrite <- app_assoc. split; [done|]. intros i. rewrite Hdrop.
    intros [[=]|[=]%list_elem_of_singleton]%elem_of_cons.
Qed.

Lemma C8_witness :
  fst <$> WidgetOpen.open (H := Examples.render) Examples.editorHandler
            (Examples.readme "L10")
            (Some (WidgetOpen.mkWidgetOpenerOptions (Some (WidgetOpen.mode_is WidgetOpen.mode_reveal)) None))
            Examples.readmeOpened
  = Some Examples.readmeWidget.
Proof.
  destruct (C8_reveal_reuses_existing_widget (H := Examples.render)
              Examples.editorHandler (Examples.readme "L10")
              (WidgetOpen.mkWidgetOpenerOptions (Some (WidgetOpen.mode_is WidgetOpen.mode_reveal)) None)
              Examples.readmeOpened Examples.readmeWidget)
    as (s' & Hopen & _).
  - vm_compute. reflexivity.
  - reflexivity.
  - by rewrite Hopen.
Defined.



(** ** More on the projection *)

Section ProjectionOrder.

Variable now : Common.CommandRegistry.
Variable o : IOptions.

Lemma commandsIn_app l1 l2 : commandsIn (l1 ++ l2) = commandsIn l1 ++ commandsIn l2.
Proof. unfold commandsIn. by rewrite map_app, concat_app. Qed.

Lemma menusIn_app l1 l2 : menusIn (l1 ++ l2) = menusIn l1 ++ menusIn l2.
Proof. unfold menusIn. by rewrite map_app, concat_app. Qed.

Lemma project_no_children c :
  (0 <? length (children c)) = false → project now o c = [].
Proof.
  intros E%Nat.ltb_ge. rewrite project_fold.
  destruct (children c); simpl in *; [done|lia].
Qed.

(** What a composite child brings: nothing, one submenu entry around its
    projection, or its projection itself. *)
Lemma contribution_composite c :
  contribution now o (Composite c)
  = match project now o c with
    | [] => []
    | sub => if isSubmenu c then [SubmenuItem (mkMenu (initial_title c) sub)] else sub
    end.
Proof.
  destruct (0 <? length (children c)) eqn:E.
  - unfold contribution, project; simpl. rewrite E.
    destruct (isSubmenu c); simpl;
      by destruct (buildSubMenus now o [] c (commands o)).
  - rewrite (project_no_children c E). unfold contribution; simpl. by rewrite E.
Qed.

Lemma commandsIn_fold cs items :
  commandsIn (fold_left (projectChild now o (commands o)) cs items)
  = commandsIn items ++ concat (map (λ n, commandsIn (contribution now o n)) cs).
Proof.
  revert items. induction cs as [|n cs IH]; intros items; simpl.
  - by rewrite app_nil_r.
  - rewrite IH, projectChild_contribution, app_assoc. f_equal.
    destruct (contribution now o n) as [|x sub]; [by rewrite app_nil_r|].
    rewrite !commandsIn_app. f_equal.
    by destruct (is_group n && (0 <? length items)).
Qed.

Lemma menusIn_fold cs items :
  menusIn (fold_left (projectChild now o (commands o)) cs items)
  = menusIn items ++ concat (map (λ n, menusIn (contribution now o n)) cs).
Proof.
  revert items. induction cs as [|n cs IH]; intros items; simpl.
  - by rewrite app_nil_r.
  - rewrite IH, projectChild_contribution, app_assoc. f_equal.
    destruct (contribution now o n) as [|x sub]; [by rewrite app_nil_r|].
    rewrite !menusIn_app. f_equal.
    by destruct (is_group n && (0 <? length items)).
Qed.

Lemma commandsIn_contribution_composite c :
  commandsIn (contribution now o (Composite c)) = commandsIn (project now o c).
Proof.
  rewrite contribution_composite.
  destruct (project now o c) as [|x sub]; [done|].
  destruct (isSubmenu c); [|done].
  unfold commandsIn at 1. simpl. by rewrite app_nil_r.
Qed.

End ProjectionOrder.

Lemma commandsIn_visibleIds now o m :
  commandsIn (project now o m) = visibleIds now o m.
Proof.
  induction m as [i l s cs IH] using CompositeMenuNode_children_ind.
  rewrite project_fold, commandsIn_fold. unfold visibleIds.
  cbn [children actions commandsIn map concat app].
  induction IH as [|n cs Hn _ IHcs]; [done|].
  cbn [map concat]. rewrite fmap_app, filter_app, IHcs. f_equal.
  destruct n as [a|c].
  - cbn [fmap list_fmap]. rewrite filter_cons, filter_nil.
    unfold contribution, projectChild.
    destruct (Phosphor.isVisible now (commands o) (action_commandId a)) eqn:V;
      cbn [negb]; [by rewrite decide_True|by rewrite decide_False].
  - rewrite commandsIn_contribution_composite. exact Hn.
Qed.

(** X1. The command descriptors of a projection, those inside its submenus
    included, are the commands of the visible action nodes of the model, each
    as often as it occurs there and in depth-first order: nothing is sorted,
    doubled or invented. So a command is in the output exactly when an
    action node of the model has it and the registry of the widget reports
    it visible. *)
Theorem X1_commands_in_model_order now o m :
  commandsIn (project now o m)
  = filter (λ i, Phosphor.isVisible now (commands o) i = true)
      (action_commandId <$> actions m)
  ∧ (∀ i, i ∈ commandsIn (project now o m)
          ↔ Phosphor.isVisible now (commands o) i = true
            ∧ ∃ a, a ∈ actions m ∧ action_commandId a = i).
Proof.
  split; [apply commandsIn_visibleIds|].
  intros i. rewrite commandsIn_visibleIds. unfold visibleIds.
  rewrite list_elem_of_filter, list_elem_of_fmap.
  split; intros [Hv (a & Ha & Hin)]; (split; [exact Hv|]); exists a; by split.
Qed.

Lemma contribution_agree now1 o1 now2 o2 n :
  match n with
  | Action a =>
    Phosphor.isVisible now1 (commands o1) (action_commandId a)
    = Phosphor.isVisible now2 (commands o2) (action_commandId a)
  | Composite c => project now1 o1 c = project now2 o2 c
  end →
  ∀ items,
    projectChild now1 o1 (commands o1) items n
    = projectChild now2 o2 (commands o2) items n.
Proof.
  intros Hn items. rewrite !projectChild_contribution.
  assert (contribution now1 o1 n = contribution now2 o2 n) as ->; [|done].
  destruct n as [a|c].
  - unfold contribution, projectChild. by rewrite Hn.
  - by rewrite !contribution_composite, Hn.
Qed.

Lemma buildSubMenus_agree now1 o1 now2 o2 m :
  (∀ a, a ∈ actions m →
        Phosphor.isVisible now1 (commands o1) (action_commandId a)
        = Phosphor.isVisible now2 (commands o2) (action_commandId a)) →
  ∀ items,
    buildSubMenus now1 o1 items m (commands o1)
    = buildSubMenus now2 o2 items m (commands o2).
Proof.
  induction m as [i l s cs IH] using CompositeMenuNode_children_ind.
  intros Hvis items. rewrite !buildSubMenus_fold. cbn [children actions] in *.
  revert items Hvis.
  induction IH as [|n cs Hn _ IHcs]; intros items Hvis; [done|].
  cbn [map concat fold_left] in *.
  rewrite (contribution_agree now1 o1 now2 o2 n).
  - apply IHcs. intros a Ha. apply Hvis, elem_of_app. by right.
  - destruct n as [a|c].
    + apply Hvis, elem_of_app. left. by apply list_elem_of_singleton.
    + apply (Hn (λ a Ha, Hvis a (proj2 (elem_of_app _ _ _) (or_introl Ha))) []).
Qed.

(** X2. The projection reads nothing of the command state and of the
    snapshot but the answers of [isVisible] for the commands of the model:
    two states and snapshots that agree on them give the same descriptors,
    whatever they say about enablement, toggling, labels or key bindings, and
    [aboutToShow] leaves a widget as it is when these answers are the ones
    its items were built with. *)
Theorem X2_projection_reads_visibility_only now1 o1 now2 o2 m :
  (∀ a, a ∈ actions m →
        Phosphor.isVisible now1 (commands o1) (action_commandId a)
        = Phosphor.isVisible now2 (commands o2) (action_commandId a)) →
  project now1 o1 m = project now2 o2 m
  ∧ (o1 = o2 →
     aboutToShow now2 (new_DynamicMenuWidget now1 m o1) = new_DynamicMenuWidget now1 m o1).
Proof.
  intros Hvis.
  assert (project now1 o1 m = project now2 o2 m) as Hp
    by (by apply buildSubMenus_agree).
  split; [exact Hp|]. intros <-.
  unfold aboutToShow, new_DynamicMenuWidget. cbn [menu options super].
  rewrite !updateSubMenus_items. cbn [title items clearItems app]. by rewrite Hp.
Qed.

Lemma X2_witness :
  project (commandRegistry Examples.nestedWorld)
    (Examples.contextOptions Examples.nestedWorld Examples.nested) Examples.nested
  = project (commandRegistry Examples.fileWorld)
      (Examples.menuBarOptions Examples.fileWorld Examples.fileRoot) Examples.nested.
Proof.
  eapply proj1, X2_projection_reads_visibility_only.
  intros a Ha. vm_compute in Ha.
  apply elem_of_cons in Ha as [->|Ha]; [vm_compute; reflexivity|].
  apply list_elem_of_singleton in Ha as ->. vm_compute. reflexivity.
Defined.

Lemma is_separator_true x : is_separator x = true ↔ x = SeparatorItem.
Proof. destruct x as [c|[t l]|]; simpl; split; done. Qed.

Lemma adjacentSeparators_app l1 l2 :
  adjacentSeparators l1 = false → adjacentSeparators l2 = false →
  last l1 ≠ Some SeparatorItem ∨ head l2 ≠ Some SeparatorItem →
  adjacentSeparators (l1 ++ l2) = false.
Proof.
  induction l1 as [|x l1 IH]; intros H1 H2 Hmid; [exact H2|].
  cbn [app adjacentSeparators] in *.
  apply orb_false_iff in H1 as [Hx H1]. apply orb_false_iff. split.
  - destruct l1 as [|y l1]; [|exact Hx]. cbn [app].
    destruct (is_separator x) eqn:Ex; [|done]. cbn [andb].
    apply is_separator_true in Ex as ->.
    destruct Hmid as [Hl|Hh]; [done|].
    destruct l2 as [|y l2]; [done|].
    destruct (is_separator y) eqn:Ey; [|done].
    apply is_separator_true in Ey as ->. done.
  - apply IH; [exact H1|exact H2|].
    destruct Hmid as [Hl|Hh]; [|by right].
    left. by destruct l1.
Qed.

(** X3. No projection has two separators next to each other. *)
Theorem X3_no_adjacent_separators now o m :
  adjacentSeparators (project now o m) = false.
Proof.
  induction m as [i l s cs IH] using CompositeMenuNode_children_ind.
  rewrite project_fold; cbn [children].
  assert (noOuterSeparator [] ∧ adjacentSeparators [] = false) as Hnil
    by (repeat split; done).
  revert Hnil. generalize (@nil IItemOptions) as items.
  induction IH as [|n cs Hn _ IHcs]; intros items [Ho Ha]; [exact Ha|].
  cbn [fold_left]. apply IHcs.
  rewrite projectChild_contribution.
  destruct (contribution now o n) as [|x sub] eqn:E; [done|].
  assert (noOuterSeparator (x :: sub) ∧ adjacentSeparators (x :: sub) = false)
    as [Ho' Ha'].
  { destruct (is_group n) eqn:G.
    - destruct n as [a|c]; [done|]. apply negb_true_iff in G.
      rewrite (contribution_group now o c G) in E. rewrite <- E.
      split; [apply project_noOuterSeparator|exact Hn].
    - destruct (contribution_not_group now o n G) as [E'|(z & E' & Hz)];
        rewrite E in E'; [done|]. injection E' as -> ->.
      split; [split; simpl; by destruct z|]. simpl. by rewrite Hz. }
  split.
  { apply noOuterSeparator_step; [done|done|done|].
    intros ->. by rewrite andb_false_r. }
  destruct items as [|y items].
  { rewrite andb_false_r. exact Ha'. }
  destruct (is_group n); cbn [andb length Nat.ltb Nat.leb].
  - rewrite app_assoc. apply adjacentSeparators_app; [|exact Ha'|right; apply Ho'].
    apply adjacentSeparators_app; [exact Ha|done|left; apply Ho].
  - cbn [app]. apply (adjacentSeparators_app (y :: items)); [exact Ha|exact Ha'|].
    left. apply Ho.
Qed.

(** X4. Every submenu entry of a projection, at any depth, stands for a
    submenu node of the model: it carries the title of that node and the
    projection of that node, and this projection is not empty. *)
Theorem X4_submenus_are_model_submenus now o m sub :
  sub ∈ menusIn (project now o m) →
  ∃ c, c ∈ submenuNodes m
       ∧ sub = mkMenu (initial_title c) (project now o c)
       ∧ project now o c ≠ [].
Proof.
  revert sub.
  induction m as [i l s cs IH] using CompositeMenuNode_children_ind.
  intros sub. rewrite project_fold, menusIn_fold. cbn [children submenuNodes].
  rewrite app_nil_l.
  induction IH as [|n cs Hn _ IHcs]; [by intros ?%elem_of_nil|].
  cbn [map concat]. intros [Hin|Hin]%elem_of_app.
  - destruct n as [a|c].
    + exfalso. revert Hin. unfold contribution, projectChild.
      destruct (negb _); simpl; by intros ?%elem_of_nil.
    + rewrite contribution_composite in Hin.
      destruct (project now o c) as [|x items] eqn:E; [by apply elem_of_nil in Hin|].
      assert (sub ∈ menusIn (x :: items) →
              ∃ c', c' ∈ (if isSubmenu c then [c] else []) ++ submenuNodes c
                    ∧ sub = mkMenu (initial_title c') (project now o c')
                    ∧ project now o c' ≠ []) as Hdeep.
      { intros (c' & ? & ? & ?)%Hn. exists c'. split; [|done].
        apply elem_of_app. by right. }
      assert (∃ c', c' ∈ (if isSubmenu c then [c] else []) ++ submenuNodes c
                    ∧ sub = mkMenu (initial_title c') (project now o c')
                    ∧ project now o c' ≠ []) as (c' & Hc' & Hsub).
      { destruct (isSubmenu c); [|by apply Hdeep].
        unfold menusIn in Hin. cbn [map concat menusOf] in Hin.
        rewrite app_nil_r in Hin. apply elem_of_cons in Hin as [->|Hin].
        - exists c. rewrite E. split; [by left|done].
        - by apply Hdeep. }
      exists c'. split; [|exact Hsub]. apply elem_of_app. by left.
  - destruct (IHcs Hin) as (c' & Hc' & Hsub).
    exists c'. split; [|exact Hsub]. apply elem_of_app. by right.
Qed.

Lemma X4_witness :
  mkMenu "Edit" [CommandItem "cmdCopy"]
  ∈ menusIn (project (commandRegistry Examples.editWorldAfter)
               (Examples.contextOptions Examples.editWorldAfter Examples.editRoot)
               Examples.editRoot)
  ∧ ∃ c, c ∈ submenuNodes Examples.editRoot
         ∧ mkMenu "Edit" [CommandItem "cmdCopy"]
           = mkMenu (initial_title c)
               (project (commandRegistry Examples.editWorldAfter)
                  (Examples.contextOptions Examples.editWorldAfter Examples.editRoot) c).
Proof.
  assert (mkMenu "Edit" [CommandItem "cmdCopy"]
          ∈ menusIn (project (commandRegistry Examples.editWorldAfter)
                       (Examples.contextOptions Examples.editWorldAfter Examples.editRoot)
                       Examples.editRoot)) as Hin by (vm_compute; by left).
  split; [exact Hin|].
  destruct (X4_submenus_are_model_submenus _ _ _ _ Hin) as (c & Hc & Hsub & _).
  by exists c.
Defined.

(** ** More on the command snapshot *)

Lemma resolvedIds_resolved w a l :
  a ∈ l → is_Some (getCommand (commandRegistry w) (action_commandId a)) →
  action_commandId a ∈ resolvedIds w l.
Proof.
  intros Hin Hres. unfold resolvedIds, resolved.
  apply list_elem_of_fmap. exists a. split; [done|].
  by apply list_elem_of_filter.
Qed.

(** An entry of the registry is never overwritten by the walk. *)
Lemma addAll_keeps w l cmds cmds' i e :
  addAll w (Some cmds) l = Some cmds' →
  _commands cmds !! i = Some e → _commands cmds' !! i = Some e.
Proof.
  revert cmds. induction l as [|a l IH]; intros cmds; [by intros [= <-]|].
  unfold addAll. cbn [fold_left mbind option_bind]. fold (addAll w).
  change (fold_left _ l ?x) with (addAll w x l).
  destruct (getCommand (commandRegistry w) (action_commandId a)) as [command|] eqn:Hc.
  - destruct (_commands cmds !! action_commandId a) as [x|] eqn:Hx.
    { rewrite addPhosphorCommand_duplicate by eauto. by rewrite addAll_None. }
    rewrite (addPhosphorCommand_fresh _ _ _ _ Hc Hx). intros Hl Hi.
    apply (IH _ Hl). simpl. rewrite lookup_insert_ne; [done|]. intros <-. congruence.
  - rewrite (addPhosphorCommand_unresolved _ _ _ Hc). apply IH.
Qed.

Lemma addAll_entries w l cmds cmds' a command :
  addAll w (Some cmds) l = Some cmds' → a ∈ l →
  getCommand (commandRegistry w) (action_commandId a) = Some command →
  _commands cmds' !! action_commandId a
  = Some (mkICommandOptions (action_commandId a) (action_label a) (iconClass command)).
Proof.
  revert cmds. induction l as [|b l IH]; intros cmds; [by intros _ ?%elem_of_nil|].
  unfold addAll. cbn [fold_left mbind option_bind]. fold (addAll w).
  change (fold_left _ l ?x) with (addAll w x l).
  intros Hl Hin Ha. apply elem_of_cons in Hin as [<-|Hin].
  - rewrite Ha in *.
    destruct (_commands cmds !! action_commandId a) as [x|] eqn:Hx.
    { rewrite addPhosphorCommand_duplicate in Hl by eauto.
      by rewrite addAll_None in Hl. }
    rewrite (addPhosphorCommand_fresh _ _ _ _ Ha Hx) in Hl.
    apply (addAll_keeps _ _ _ _ _ _ Hl). simpl. apply lookup_insert_eq.
  - destruct (addPhosphorCommand w cmds b) as [cmds1|] eqn:Hb;
      [|by rewrite addAll_None in Hl].
    by apply (IH cmds1).
Qed.

Lemma keyBindingsFor_cons w a l :
  keyBindingsFor w (a :: l)
  = (if decide (is_Some (getCommand (commandRegistry w) (action_commandId a)))
     then (λ keys, mkIKeyBindingOptions (action_commandId a) keys ".p-Widget")
            <$> firstAccelerator w (action_commandId a)
     else [])
    ++ keyBindingsFor w l.
Proof.
  unfold keyBindingsFor, resolved. rewrite filter_cons. by case_decide.
Qed.

Lemma addAll_keyBindings w l cmds cmds' :
  addAll w (Some cmds) l = Some cmds' →
  _keyBindings cmds' = _keyBindings cmds ++ keyBindingsFor w l.
Proof.
  revert cmds. induction l as [|a l IH]; intros cmds.
  - intros [= <-]. by rewrite app_nil_r.
  - unfold addAll. cbn [fold_left mbind option_bind]. fold (addAll w).
    change (fold_left _ l ?x) with (addAll w x l). rewrite keyBindingsFor_cons.
    destruct (getCommand (commandRegistry w) (action_commandId a))
      as [command|] eqn:Hc.
    + rewrite decide_True by eauto.
      destruct (_commands cmds !! action_commandId a) as [x|] eqn:Hx.
      { rewrite addPhosphorCommand_duplicate by eauto. by rewrite addAll_None. }
      rewrite (addPhosphorCommand_fresh _ _ _ _ Hc Hx).
      intros ->%IH. simpl. by rewrite app_assoc.
    + rewrite decide_False by (by intros [? ?]).
      rewrite (addPhosphorCommand_unresolved _ _ _ Hc). apply IH.
Qed.

Lemma addAll_resolved w l acc : addAll w acc l = addAll w acc (resolved w l).
Proof.
  revert acc. induction l as [|a l IH]; intros acc; [done|].
  unfold resolved. rewrite filter_cons. fold (resolved w l).
  unfold addAll at 1. cbn [fold_left]. fold (addAll w).
  change (fold_left _ l ?x) with (addAll w x l).
  case_decide as Hres.
  - unfold addAll at 2. cbn [fold_left].
    change (fold_left _ (resolved w l) ?x) with (addAll w x (resolved w l)). apply IH.
  - rewrite <- IH. f_equal. destruct acc as [cmds|]; [|done]. simpl.
    apply addPhosphorCommand_unresolved.
    destruct (getCommand (commandRegistry w) (action_commandId a)) eqn:E; [|done].
    exfalso. apply Hres. eauto.
Qed.

(** X5. Building the snapshot throws exactly when two action nodes of the
    model resolve to one command, and [createContextMenu] and
    [createMenuBar] throw with it: a command may stand in a menu model once
    only. *)
Theorem X5_shared_command_throws w :
  (∀ m, is_Some (createPhosporCommands w m) ↔ NoDup (resolvedIds w (actions m)))
  ∧ (∀ path, is_Some (createContextMenu w path)
             ↔ NoDup (resolvedIds w (actions (menuProvider w path))))
  ∧ (is_Some (createMenuBar w)
     ↔ NoDup (resolvedIds w (actions (menuProvider w MAIN_MENU_BAR)))).
Proof.
  assert (∀ m, is_Some (createPhosporCommands w m) ↔ NoDup (resolvedIds w (actions m)))
    as Hsnap.
  { intros m. unfold createPhosporCommands. rewrite addPhosphorCommands_actions.
    split.
    - intros [cmds Hc]. by apply addAll_Some in Hc as (_ & ? & _).
    - intros Hnd. by apply addAll_is_Some. }
  split; [exact Hsnap|]. split.
  - intros path. rewrite <- Hsnap. unfold createContextMenu.
    destruct (createPhosporCommands w (menuProvider w path)); simpl;
      split; intros [? ?]; by eauto.
  - rewrite <- Hsnap. unfold createMenuBar.
    destruct (createPhosporCommands w (menuProvider w MAIN_MENU_BAR)); simpl;
      split; intros [? ?]; by eauto.
Qed.

Lemma X5_witness :
  createContextMenu Examples.twiceWorld [] = None
  ∧ createMenuBar Examples.twiceWorld = None.
Proof.
  destruct (X5_shared_command_throws Examples.twiceWorld) as (_ & Hctx & Hbar).
  assert (¬ NoDup (resolvedIds Examples.twiceWorld (actions Examples.twiceRoot)))
    as Hdup.
  { vm_compute. intros Hnd. apply NoDup_cons in Hnd as [Hnotin _].
    apply Hnotin. by left. }
  split.
  - destruct (createContextMenu Examples.twiceWorld []) eqn:E; [|done].
    exfalso. apply Hdup, (Hctx []). by eauto.
  - destruct (createMenuBar Examples.twiceWorld) eqn:E; [|done].
    exfalso. apply Hdup, Hbar. by eauto.
Defined.

(** X6. The entry the snapshot holds for the command of an action node has
    the label of the node, not that of the command, the icon class of the
    command, and closures over the id of the command. *)
Theorem X6_entry_of_an_action w m cmds a command :
  createPhosporCommands w m = Some cmds →
  a ∈ actions m →
  getCommand (commandRegistry w) (action_commandId a) = Some command →
  _commands cmds !! action_commandId a
  = Some (mkICommandOptions (action_commandId a) (action_label a) (iconClass command)).
Proof.
  unfold createPhosporCommands. rewrite addPhosphorCommands_actions.
  apply addAll_entries.
Qed.

Lemma X6_witness :
  _commands (commands (Examples.contextOptions Examples.boundWorld Examples.boundRoot))
    !! "cmdA"
  = Some (mkICommandOptions "cmdA" "cmdA" None).
Proof.
  apply (X6_entry_of_an_action Examples.boundWorld Examples.boundRoot _
           (mkActionMenuNode "cmdA" "cmdA") (mkCommand "cmdA" None None)).
  - vm_compute. reflexivity.
  - vm_compute. by left.
  - vm_compute. reflexivity.
Defined.

(** X7. The key bindings of a snapshot are, in the depth-first order of the
    model, one binding for each resolved action whose command has a binding:
    the accelerator of its first binding, for the selector [.p-Widget]. The
    actions whose command does not resolve leave no trace in the snapshot:
    the walk does what it does on the resolved actions alone. *)
Theorem X7_key_bindings_in_model_order w m cmds :
  createPhosporCommands w m = Some cmds →
  _keyBindings cmds = keyBindingsFor w (actions m)
  ∧ Forall (λ k, kb_selector k = ".p-Widget") (_keyBindings cmds)
  ∧ addPhosphorCommands w Phosphor.empty m
    = addAll w (Some Phosphor.empty) (resolved w (actions m)).
Proof.
  intros Hc.
  assert (_keyBindings cmds = keyBindingsFor w (actions m)) as Hk.
  { unfold createPhosporCommands in Hc. rewrite addPhosphorCommands_actions in Hc.
    by apply addAll_keyBindings in Hc. }
  split; [exact Hk|]. split.
  - rewrite Hk. unfold keyBindingsFor. apply Forall_forall. intros k Hin.
    apply list_elem_of_In, in_concat in Hin as (ks & Hks & Hin).
    apply in_map_iff in Hks as (a & <- & _).
    apply list_elem_of_In, list_elem_of_fmap in Hin as (keys & -> & _). done.
  - rewrite addPhosphorCommands_actions. apply addAll_resolved.
Qed.

Lemma X7_witness :
  _keyBindings (commands (Examples.contextOptions Examples.boundWorld Examples.boundRoot))
  = [mkIKeyBindingOptions "cmdA" ["ctrl+a"] ".p-Widget"].
Proof.
  destruct (X7_key_bindings_in_model_order Examples.boundWorld Examples.boundRoot
              (commands (Examples.contextOptions Examples.boundWorld Examples.boundRoot)))
    as (Hk & _).
  - vm_compute. reflexivity.
  - rewrite Hk. vm_compute. reflexivity.
Defined.

(** ** More on the factory *)

Lemma filter_agree {A} (P Q : A → Prop)
    `{∀ x, Decision (P x)} `{∀ x, Decision (Q x)} (l : list A) :
  (∀ x, x ∈ l → P x ↔ Q x) → filter P l = filter Q l.
Proof.
  induction l as [|x l IH]; intros HPQ; [done|].
  rewrite !filter_cons, IH by (intros y Hy; apply HPQ; by right).
  destruct (decide (P x)) as [HP|HP], (decide (Q x)) as [HQ|HQ]; try done;
    exfalso; [apply HQ|apply HP]; by apply (HPQ x); [left|].
Qed.

Lemma filter_all {A} (P : A → Prop) `{∀ x, Decision (P x)} (l : list A) :
  (∀ x, x ∈ l → P x) → filter P l = l.
Proof.
  induction l as [|x l IH]; intros HP; [done|].
  rewrite filter_cons, decide_True by (apply HP; by left).
  by rewrite IH by (intros y Hy; apply HP; by right).
Qed.

Lemma composites_length cs : length (composites cs) ≤ length cs.
Proof.
  induction cs as [|n cs IH]; [done|].
  unfold composites in *. destruct n as [a|c]; cbn [omap list_omap length]; lia.
Qed.

Lemma createMenuBar_menus w cmds (cs : list MenuNode) acc :
  fold_left (λ bar m,
     match m with
     | Composite c =>
       bar ++ [new_DynamicMenuWidget (commandRegistry w) c
                 (mkIOptions (replace_isVisible cmds))]
     | Action _ => bar
     end) cs acc
  = acc ++ ((λ c, new_DynamicMenuWidget (commandRegistry w) c
                    (mkIOptions (replace_isVisible cmds))) <$> composites cs).
Proof.
  revert acc. induction cs as [|n cs IH]; intros acc; simpl.
  - by rewrite app_nil_r.
  - rewrite IH. destruct n as [a|c]; simpl; [done|]. by rewrite <- app_assoc.
Qed.

Lemma createMenuBar_Some w bar :
  createMenuBar w = Some bar →
  ∃ cmds,
    createPhosporCommands w (menuProvider w MAIN_MENU_BAR) = Some cmds
    ∧ bar = mkDynamicMenuBarWidget "theia:menubar"
              ((λ c, new_DynamicMenuWidget (commandRegistry w) c
                       (mkIOptions (replace_isVisible cmds)))
                 <$> composites (children (menuProvider w MAIN_MENU_BAR)))
              None.
Proof.
  unfold createMenuBar.
  destruct (createPhosporCommands w (menuProvider w MAIN_MENU_BAR)) as [cmds|];
    simpl; [|done].
  intros [= <-]. exists cmds. split; [done|]. by rewrite createMenuBar_menus.
Qed.

(** X8. The menu bar has one menu for each composite child of the main menu
    model, in the order of the children, and none for an action that stands
    directly under the main menu; no menu is active at first, and every menu
    holds the projection of its node under the one snapshot they all
    share. *)
Theorem X8_one_menu_per_top_level_composite w bar :
  createMenuBar w = Some bar →
  menu <$> menus bar = composites (children (menuProvider w MAIN_MENU_BAR))
  ∧ length (menus bar) ≤ length (children (menuProvider w MAIN_MENU_BAR))
  ∧ activeIndex bar = None
  ∧ (∀ w1 w2, w1 ∈ menus bar → w2 ∈ menus bar → options w1 = options w2)
  ∧ (∀ widget, widget ∈ menus bar →
       super widget
       = mkMenu (initial_title (menu widget))
           (project (commandRegistry w) (options widget) (menu widget))).
Proof.
  intros (cmds & _ & ->)%createMenuBar_Some. cbn [menus activeIndex].
  split.
  { induction (composites (children (menuProvider w MAIN_MENU_BAR))) as [|c l IH];
      [done|]. rewrite !fmap_cons. by f_equal. }
  split.
  { rewrite length_fmap. apply composites_length. }
  split; [done|]. split.
  { intros w1 w2 (c1 & -> & _)%list_elem_of_fmap (c2 & -> & _)%list_elem_of_fmap. done. }
  intros widget (c & -> & _)%list_elem_of_fmap. apply submenu_is_new_widget.
Qed.

Lemma X8_witness :
  (λ bar, menu <$> menus bar) <$> createMenuBar Examples.editWorldAfter
  = Some [Examples.submenu "Edit" [Examples.action "cmdCopy"]].
Proof.
  destruct (createMenuBar Examples.editWorldAfter) as [bar|] eqn:E;
    [|by vm_compute in E].
  destruct (X8_one_menu_per_top_level_composite _ _ E) as (Hm & _).
  cbn [fmap option_fmap option_map]. rewrite Hm. reflexivity.
Defined.

(** X9. A menu of the menu bar shows every action of its node, resolved or
    not and visible or not, in depth-first order; and as long as the node
    has the children it had, [aboutToShow] leaves the menu as it is, whatever
    has become of the command state in between. *)
Theorem X9_menu_bar_menus_show_every_action w bar widget :
  createMenuBar w = Some bar → widget ∈ menus bar →
  commandsIn (items (super widget)) = action_commandId <$> actions (menu widget)
  ∧ (∀ now, aboutToShow now widget = widget).
Proof.
  intros (cmds & _ & ->)%createMenuBar_Some. cbn [menus].
  intros (c & -> & _)%list_elem_of_fmap. split.
  - rewrite submenu_is_new_widget. cbn [items menu new_DynamicMenuWidget].
    rewrite commandsIn_visibleIds. unfold visibleIds.
    by apply filter_all.
  - intros now. unfold aboutToShow, new_DynamicMenuWidget. cbn [menu options super].
    rewrite !updateSubMenus_items. cbn [title items clearItems app].
    f_equal. f_equal. by apply buildSubMenus_agree.
Qed.

Lemma X9_witness :
  (λ bar, (λ widget, commandsIn (items (super widget))) <$> menus bar)
    <$> createMenuBar Examples.editWorldBefore
  = Some [["cmdCopy"]].
Proof.
  destruct (createMenuBar Examples.editWorldBefore) as [bar|] eqn:E;
    [|by vm_compute in E].
  cbn [fmap option_fmap option_map]. f_equal.
  assert (length (menus bar) = 1) as Hlen by (injection E as <-; reflexivity).
  destruct (menus bar) as [|widget [|? ?]] eqn:Hm; [done| |done].
  assert (widget ∈ menus bar) as Hin by (rewrite Hm; by left).
  destruct (X9_menu_bar_menus_show_every_action _ _ _ E Hin) as [Hc _].
  cbn [fmap list_fmap]. rewrite Hc.
  injection E as <-. vm_compute in Hm. injection Hm as <-. reflexivity.
Defined.

(** X10. A context menu that is made and projected in one state of the
    collaborators shows the commands of those action nodes of its model whose
    command is registered and visible, in depth-first order, and no other
    command. *)
Theorem X10_context_menu_shows_registered_visible w path widget :
  createContextMenu w path = Some widget →
  menu widget = menuProvider w path
  ∧ commandsIn (items (super widget))
    = filter (λ i, is_Some (getCommand (commandRegistry w) i)
                   ∧ Common.isVisible (commandRegistry w) i = true)
        (action_commandId <$> actions (menuProvider w path)).
Proof.
  unfold createContextMenu.
  destruct (createPhosporCommands w (menuProvider w path)) as [cmds|] eqn:Hc;
    simpl; [|done].
  intros [= <-]. split; [done|].
  rewrite submenu_is_new_widget. cbn [items].
  rewrite commandsIn_visibleIds. unfold visibleIds.
  destruct (createPhosporCommands_Some _ _ _ Hc) as (Hr & Hdom & Hself & _).
  apply filter_agree. intros i Hin. simpl.
  unfold Phosphor.isVisible. rewrite Hr.
  apply list_elem_of_fmap in Hin as (a & -> & Ha).
  destruct (_commands cmds !! action_commandId a) as [e|] eqn:E.
  - rewrite (Hself _ _ E). split; [|by intros [_ ?]].
    intros Hv. split; [|exact Hv].
    assert (action_commandId a ∈ resolvedIds w (actions (menuProvider w path)))
      as Hres by (apply Hdom; eauto).
    unfold resolvedIds, resolved in Hres.
    apply list_elem_of_fmap in Hres as (b & Hb & Hin).
    apply list_elem_of_filter in Hin as [Hres _]. by rewrite Hb.
  - split; [done|]. intros [Hres _]. exfalso.
    assert (is_Some (_commands cmds !! action_commandId a)) as [? ?]
      by (apply Hdom; by apply resolvedIds_resolved).
    congruence.
Qed.

Lemma X10_witness :
  (λ widget, commandsIn (items (super widget)))
    <$> createContextMenu Examples.editWorldAfter []
  = Some ["cmdCopy"].
Proof.
  destruct (createContextMenu Examples.editWorldAfter []) as [widget|] eqn:E;
    [|by vm_compute in E].
  destruct (X10_context_menu_shows_registered_visible _ _ _ E) as [_ Hc].
  cbn [fmap option_fmap option_map]. rewrite Hc. vm_compute. reflexivity.
Defined.

(** ** More on opening and closing *)

Section LifecycleInvariant.

Import Lifecycle.

(** The callbacks connected to the signal are distinct closures, all made
    before now. *)
Lemma reachable_callbacks s :
  reachable s →
  NoDup (map cb_id (aboutToClose s))
  ∧ Forall (λ c, cb_id c < closures s) (aboutToClose s).
Proof.
  induction 1 as [active n|s s' Hs [Hnd Hlt] Hstep]; [split; constructor|].
  destruct Hstep as [s|s|e s]; [| |done].
  - unfold open, super_open, connect, connected. cbn [aboutToClose isAttached].
    case_bool_decide as Hc.
    + assert (NoDup (map cb_id (aboutToClose s))
              ∧ Forall (λ c, cb_id c < S (closures s)) (aboutToClose s)) as Hkeep.
      { split; [done|]. eapply Forall_impl; [exact Hlt|]. simpl. lia. }
      by destruct (isAttached s).
    + assert (NoDup (map cb_id (aboutToClose s ++ [mkCallback (closures s) (activeElement s)]))
              ∧ Forall (λ c, cb_id c < S (closures s))
                  (aboutToClose s ++ [mkCallback (closures s) (activeElement s)]))
        as Hnew.
      { split.
        - rewrite map_app. apply NoDup_app. split; [done|]. split.
          + intros i Hi [->|[]%elem_of_nil]%elem_of_cons. done.
          + apply NoDup_singleton.
        - apply Forall_app. split.
          + eapply Forall_impl; [exact Hlt|]. simpl. lia.
          + constructor; [simpl; lia|constructor]. }
      by destruct (isAttached s).
  - unfold close. destruct (isAttached s); [|done].
    cbn [aboutToClose closures]. rewrite emit_slots. split; constructor.
Qed.

Lemma disconnect_other cb c s :
  cb_id c ≠ cb_id cb →
  cb_id c ∈ map cb_id (aboutToClose s) →
  cb_id c ∈ map cb_id (aboutToClose (run cb s)).
Proof.
  intros Hne (c' & Heq & Hin)%list_elem_of_fmap. unfold run, disconnect. simpl.
  apply list_elem_of_fmap. exists c'. split; [done|].
  apply list_elem_of_filter. split; [congruence|done].
Qed.

(** An emission to distinct, connected callbacks calls [focus()] for each of
    them, in order. *)
Lemma emit_to_focusCalls rs s :
  NoDup (map cb_id rs) →
  (∀ c, c ∈ rs → cb_id c ∈ map cb_id (aboutToClose s)) →
  focusCalls (emit_to rs s) = focusCalls s ++ map previouslyActive rs
  ∧ activeElement (emit_to rs s)
    = default (activeElement s) (last (map previouslyActive rs))
  ∧ node (emit_to rs s) = node s
  ∧ closures (emit_to rs s) = closures s.
Proof.
  revert s. induction rs as [|cb rs IH]; intros s Hnd Hin.
  - simpl. by rewrite app_nil_r.
  - cbn [map] in Hnd. apply NoDup_cons in Hnd as [Hnotin Hnd].
    cbn [emit_to].
    replace (connected cb s) with true
      by (symmetry; apply bool_decide_eq_true_2, Hin; by left).
    destruct (IH (run cb s) Hnd) as (Hf & Ha & Hn & Hc).
    { intros c Hc. apply disconnect_other; [|apply Hin; by right].
      intros Heq. apply Hnotin. rewrite <- Heq. apply list_elem_of_fmap. by exists c. }
    rewrite Hf, Ha, Hn, Hc. cbn [map]. unfold run, disconnect. simpl.
    rewrite <- app_assoc. split; [done|]. split; [|done].
    destruct rs as [|cb' rs]; [done|]. simpl.
    destruct (last (previouslyActive cb' :: map previouslyActive rs)) eqn:E; [done|].
    by apply last_None in E.
Qed.

End LifecycleInvariant.

(** X11. Every call of [open] hooks exactly one new callback, which holds
    the element that is active at that moment, after the callbacks that are
    hooked already; it does so as well when the menu is attached already and
    Phosphor's [open] does nothing; and it calls [focus()] on nothing. *)
Theorem X11_open_hooks_one_callback s :
  Lifecycle.reachable s →
  Lifecycle.aboutToClose (Lifecycle.open s)
  = Lifecycle.aboutToClose s
    ++ [Lifecycle.mkCallback (Lifecycle.closures s) (Lifecycle.activeElement s)]
  ∧ Lifecycle.isAttached (Lifecycle.open s) = true
  ∧ Lifecycle.focusCalls (Lifecycle.open s) = Lifecycle.focusCalls s
  ∧ (Lifecycle.isAttached s = true →
     Lifecycle.activeElement (Lifecycle.open s) = Lifecycle.activeElement s).
Proof.
  intros [_ Hlt]%reachable_callbacks.
  unfold Lifecycle.open, Lifecycle.super_open, Lifecycle.connect, Lifecycle.connected.
  cbn [Lifecycle.aboutToClose Lifecycle.isAttached].
  rewrite bool_decide_eq_false_2.
  - destruct (Lifecycle.isAttached s); simpl; repeat split; done.
  - intros (c & Heq & Hin)%list_elem_of_fmap.
    rewrite Forall_forall in Hlt. specialize (Hlt c Hin). simpl in Heq. lia.
Qed.

Lemma X11_witness :
  Lifecycle.aboutToClose (Lifecycle.open (Lifecycle.open (Lifecycle.created 7 9)))
  = [Lifecycle.mkCallback 0 7; Lifecycle.mkCallback 1 9].
Proof.
  destruct (X11_open_hooks_one_callback (Lifecycle.open (Lifecycle.created 7 9)))
    as (Hslots & _).
  - eapply Lifecycle.reachable_step; [apply Lifecycle.reachable_created|].
    apply Lifecycle.step_open.
  - rewrite Hslots. reflexivity.
Defined.

(** X12. Closing an attached menu calls [focus()] once for every [open]
    call since the menu was last closed, in the order of those calls and on
    the element each of them found active, so that the focus ends on the
    element the last of them found; it leaves no callback hooked and the
    menu detached. *)
Theorem X12_close_restores_for_each_open s :
  Lifecycle.reachable s → Lifecycle.isAttached s = true →
  Lifecycle.focusCalls (Lifecycle.close s)
  = Lifecycle.focusCalls s
    ++ map Lifecycle.previouslyActive (Lifecycle.aboutToClose s)
  ∧ Lifecycle.activeElement (Lifecycle.close s)
    = default (Lifecycle.activeElement s)
        (last (map Lifecycle.previouslyActive (Lifecycle.aboutToClose s)))
  ∧ Lifecycle.aboutToClose (Lifecycle.close s) = []
  ∧ Lifecycle.isAttached (Lifecycle.close s) = false.
Proof.
  intros [Hnd _]%reachable_callbacks Hatt.
  unfold Lifecycle.close. rewrite Hatt.
  cbn [Lifecycle.focusCalls Lifecycle.activeElement Lifecycle.aboutToClose
       Lifecycle.isAttached].
  rewrite emit_slots. unfold Lifecycle.emit.
  destruct (emit_to_focusCalls (Lifecycle.aboutToClose s) s Hnd) as (Hf & Ha & _).
  { intros c Hc. apply list_elem_of_fmap. by exists c. }
  by rewrite Hf, Ha.
Qed.

Lemma X12_witness :
  Lifecycle.focusCalls
    (Lifecycle.close (Lifecycle.open (Lifecycle.open (Lifecycle.created 7 9))))
  = [7; 9].
Proof.
  destruct (X12_close_restores_for_each_open
              (Lifecycle.open (Lifecycle.open (Lifecycle.created 7 9))))
    as (Hcalls & _).
  - eapply Lifecycle.reachable_step; [|apply Lifecycle.step_open].
    eapply Lifecycle.reachable_step; [apply Lifecycle.reachable_created|].
    apply Lifecycle.step_open.
  - reflexivity.
  - rewrite Hcalls. reflexivity.
Defined.

(** ** More on the open handler *)

Lemma doOpen_calls w o s :
  WidgetOpen.calls (WidgetOpen.shell (WidgetOpen.doOpen w o s))
  = WidgetOpen.calls (WidgetOpen.shell s)
    ++ (if WidgetOpen.isAttached (WidgetOpen.shell s) w then []
        else [WidgetOpen.addWidget_call w
                (default (WidgetOpen.mkWidgetOptions "main")
                   (o ≫= WidgetOpen.widgetOptions))])
    ++ modeCalls o w.
Proof.
  unfold WidgetOpen.doOpen, modeCalls. cbn [WidgetOpen.shell].
  destruct (WidgetOpen.isAttached (WidgetOpen.shell s) w);
    destruct o as [[[[|[]]|] wo]|]; simpl;
    rewrite ?app_nil_r, <- ?app_assoc; done.
Qed.

Lemma doOpen_attached w o s :
  WidgetOpen.attached (WidgetOpen.shell (WidgetOpen.doOpen w o s))
  = {[WidgetOpen.widget_id w]} ∪ WidgetOpen.attached (WidgetOpen.shell s).
Proof.
  unfold WidgetOpen.doOpen. cbn [WidgetOpen.shell].
  unfold WidgetOpen.isAttached. case_bool_decide as Hatt; cbn [negb];
    destruct o as [[[[|[]]|] wo]|]; simpl;
    try done; symmetry; by apply subseteq_union_1_L, singleton_subseteq_l.
Qed.

Section OpenHandlerFacts.

Context `{WidgetOpen.UriToString}.
Variable this : WidgetOpen.WidgetOpenHandler.

Lemma open_Some uri o s w s' :
  WidgetOpen.open this uri o s = Some (w, s') →
  ∃ m, WidgetOpen.manager_getOrCreateWidget (WidgetOpen.widgetManager s)
         (WidgetOpen.id this) (WidgetOpen.createWidgetOptions uri o) = Some (w, m)
       ∧ s' = WidgetOpen.doOpen w o (WidgetOpen.mkState (WidgetOpen.shell s) m).
Proof.
  unfold WidgetOpen.open, WidgetOpen.getOrCreateWidget.
  destruct (WidgetOpen.manager_getOrCreateWidget _ _ _) as [[w1 m1]|]; simpl; [|done].
  intros [= <- <-]. by exists m1.
Qed.

Lemma open_attached_stored uri o s w s' :
  WidgetOpen.open this uri o s = Some (w, s') →
  WidgetOpen.isAttached (WidgetOpen.shell s') w = true
  ∧ WidgetOpen.widgets (WidgetOpen.widgetManager s')
      !! (WidgetOpen.id this, WidgetOpen.createWidgetOptions uri o) = Some w.
Proof.
  intros (m & Hm & ->)%open_Some. split.
  - unfold WidgetOpen.isAttached. rewrite doOpen_attached.
    apply bool_decide_eq_true_2, elem_of_union. left. by apply elem_of_singleton.
  - by apply manager_getOrCreateWidget_stored in Hm.
Qed.

End OpenHandlerFacts.

(** X13. When [open] resolves, the widget is attached to the shell and is
    the widget [getByUri] finds for the URI; no other widget was detached;
    and the shell was called with [addWidget] only if the widget was not
    attached, in the area of the widget options or in [main] without any,
    and then with [activateWidget] when the options are missing, have no
    [mode] property or have the mode [activate], with [revealWidget] when
    the mode is [reveal], and with nothing more when the mode is [open] or
    when the [mode] property is there with the value [undefined]. *)
Theorem X13_open_attaches_and_activates `{WidgetOpen.UriToString}
    this uri o s w s' :
  WidgetOpen.open this uri o s = Some (w, s') →
  WidgetOpen.isAttached (WidgetOpen.shell s') w = true
  ∧ WidgetOpen.getByUri this uri s' = Some w
  ∧ WidgetOpen.attached (WidgetOpen.shell s) ⊆ WidgetOpen.attached (WidgetOpen.shell s')
  ∧ WidgetOpen.calls (WidgetOpen.shell s')
    = WidgetOpen.calls (WidgetOpen.shell s)
      ++ (if WidgetOpen.isAttached (WidgetOpen.shell s) w then []
          else [WidgetOpen.addWidget_call w
                  (default (WidgetOpen.mkWidgetOptions "main")
                     (o ≫= WidgetOpen.widgetOptions))])
      ++ modeCalls o w.
Proof.
  intros Hopen. destruct (open_attached_stored _ _ _ _ _ _ Hopen) as [Hatt Hget].
  apply open_Some in Hopen as (m & Hm & ->).
  split; [exact Hatt|]. split; [exact Hget|].
  split; [rewrite doOpen_attached; apply union_subseteq_r|].
  by rewrite doOpen_calls.
Qed.

Lemma X13_witness :
  (λ r, WidgetOpen.calls (WidgetOpen.shell r.2))
    <$> WidgetOpen.open (H := Examples.render) Examples.editorHandler
          (Examples.readme "L10") None Examples.readmeOpened
  = Some [WidgetOpen.addWidget_call Examples.readmeWidget (WidgetOpen.mkWidgetOptions "main");
          WidgetOpen.activateWidget_call (WidgetOpen.widget_id Examples.readmeWidget)]
  ∧ (λ r, WidgetOpen.calls (WidgetOpen.shell r.2))
      <$> WidgetOpen.open (H := Examples.render) Examples.editorHandler
            (Examples.readme "L10")
            (Some (WidgetOpen.mkWidgetOpenerOptions (Some WidgetOpen.mode_undefined) None))
            Examples.readmeOpened
    = Some [WidgetOpen.addWidget_call Examples.readmeWidget
              (WidgetOpen.mkWidgetOptions "main")].
Proof.
  split.
  - destruct (WidgetOpen.open (H := Examples.render) Examples.editorHandler
                (Examples.readme "L10") None Examples.readmeOpened)
      as [[w s']|] eqn:E; [|by vm_compute in E].
    destruct (X13_open_attaches_and_activates (H := Examples.render) _ _ _ _ _ _ E)
      as (_ & _ & _ & Hcalls).
    cbn [fmap option_fmap option_map snd]. rewrite Hcalls.
    vm_compute in E. injection E as <- _. reflexivity.
  - destruct (WidgetOpen.open (H := Examples.render) Examples.editorHandler
                (Examples.readme "L10")
                (Some (WidgetOpen.mkWidgetOpenerOptions
                         (Some WidgetOpen.mode_undefined) None))
                Examples.readmeOpened)
      as [[w s']|] eqn:E; [|by vm_compute in E].
    destruct (X13_open_attaches_and_activates (H := Examples.render) _ _ _ _ _ _ E)
      as (_ & _ & _ & Hcalls).
    cbn [fmap option_fmap option_map snd]. rewrite Hcalls.
    vm_compute in E. injection E as <- _. reflexivity.
Defined.

(** X14. After [open] has resolved for a URI, a second [open] for it, with
    whatever options, resolves to the same widget, leaves the widget manager
    as it is, so that no widget is made, and calls the shell for the mode
    only: the widget is not added a second time. *)
Theorem X14_second_open_reuses `{WidgetOpen.UriToString} this uri o1 o2 s w s1 :
  WidgetOpen.open this uri o1 s = Some (w, s1) →
  ∃ s2,
    WidgetOpen.open this uri o2 s1 = Some (w, s2)
    ∧ WidgetOpen.widgetManager s2 = WidgetOpen.widgetManager s1
    ∧ WidgetOpen.attached (WidgetOpen.shell s2) = WidgetOpen.attached (WidgetOpen.shell s1)
    ∧ WidgetOpen.calls (WidgetOpen.shell s2)
      = WidgetOpen.calls (WidgetOpen.shell s1) ++ modeCalls o2 w.
Proof.
  intros Hopen.
  destruct (open_attached_stored _ _ _ _ _ _ Hopen) as [Hatt Hget].
  unfold WidgetOpen.open, WidgetOpen.getOrCreateWidget.
  change (WidgetOpen.createWidgetOptions uri o2)
    with (WidgetOpen.createWidgetOptions uri o1).
  rewrite (manager_getOrCreateWidget_existing _ _ _ _ Hget). simpl.
  eexists. split; [reflexivity|]. split; [done|]. split.
  - rewrite doOpen_attached. simpl.
    apply bool_decide_eq_true_1 in Hatt.
    by apply subseteq_union_1_L, singleton_subseteq_l.
  - rewrite doOpen_calls. simpl. by rewrite Hatt.
Qed.

Lemma X14_witness :
  fst <$> (WidgetOpen.open (H := Examples.render) Examples.editorHandler
             (Examples.readme "") None Examples.emptyManager
           ≫= λ r, WidgetOpen.open (H := Examples.render) Examples.editorHandler
                      (Examples.readme "L10")
                      (Some (WidgetOpen.mkWidgetOpenerOptions
                               (Some (WidgetOpen.mode_is WidgetOpen.mode_reveal)) None)) r.2)
  = Some (WidgetOpen.mkBaseWidget "code-editor-opener:file:///home/README.md").
Proof.
  destruct (WidgetOpen.open (H := Examples.render) Examples.editorHandler
              (Examples.readme "") None Examples.emptyManager)
    as [[w s1]|] eqn:E; [|by vm_compute in E].
  destruct (X14_second_open_reuses (H := Examples.render) _ _ _
              (Some (WidgetOpen.mkWidgetOpenerOptions (Some (WidgetOpen.mode_is WidgetOpen.mode_reveal)) None))
              _ _ _ E) as (s2 & Hopen & _).
  cbn [mbind option_bind snd].
  change (WidgetOpen.open Examples.editorHandler (Examples.readme "L10"))
    with (WidgetOpen.open (H := Examples.render) Examples.editorHandler
            (Examples.readme "")).
  rewrite Hopen. vm_compute in E. injection E as <- _. reflexivity.
Defined.

(** ** More on the menu bar *)

Lemma aboutToShow_eq now x :
  aboutToShow now x
  = mkDynamicMenuWidget (menu x) (options x)
      (mkMenu (title (super x)) (project now (options x) (menu x))).
Proof. unfold aboutToShow. by rewrite updateSubMenus_items. Qed.

(** X16. Take a menu of the menu bar whose model node has been changed
    since the bar was made, and let it be the active menu. The hook puts
    the projection of the node as it is now in place of its items, so that
    the menu shows every action the node has now, in depth-first order, and
    keeps its snapshot; every other menu of the bar is left with the items
    it had, and the bar has the menus it had, in number and in order. *)
Theorem X16_hook_reprojects_the_active_menu w bar i active m now :
  createMenuBar w = Some bar → menus bar !! i = Some active →
  let changed :=
    mkDynamicMenuBarWidget (bar_id bar)
      (<[i := nodeBecomes m active]> (menus bar)) (Some i) in
  (∃ shown,
      menus (_openChildMenu now changed) !! i = Some shown
      ∧ menu shown = m
      ∧ options shown = options active
      ∧ items (super shown) = project now (options active) m
      ∧ commandsIn (items (super shown)) = action_commandId <$> actions m)
  ∧ (∀ j, j ≠ i → menus (_openChildMenu now changed) !! j = menus bar !! j)
  ∧ length (menus (_openChildMenu now changed)) = length (menus bar).
Proof.
  intros Hbar Hactive changed.
  assert (i < length (menus bar)) as Hlt by (by eapply lookup_lt_Some).
  assert (active ∈ menus bar) as Hin by (by eapply list_elem_of_lookup_2).
  assert (isVisible_replaced (commands (options active)) = true) as Hforced.
  { apply createMenuBar_Some in Hbar as (cmds & _ & ->). cbn [menus] in Hin.
    by apply list_elem_of_fmap in Hin as (c & -> & _). }
  unfold _openChildMenu, changed. cbn [activeIndex menus bar_id].
  rewrite list_lookup_insert_eq by done. cbn [menus].
  rewrite list_insert_insert_eq.
  split.
  - exists (aboutToShow now (nodeBecomes m active)).
    split; [by apply list_lookup_insert_eq|].
    rewrite aboutToShow_eq. cbn [menu options super items nodeBecomes].
    split; [done|]. split; [done|]. split; [done|].
    rewrite commandsIn_visibleIds. unfold visibleIds. apply filter_all.
    intros x _. unfold Phosphor.isVisible. by rewrite Hforced.
  - split; [|by rewrite length_insert].
    intros j Hj. by rewrite list_lookup_insert_ne.
Qed.

Lemma X16_witness :
  (λ widget, commandsIn (items (super widget)))
    <$> menus (_openChildMenu (commandRegistry Examples.editWorldAfter)
                 (mkDynamicMenuBarWidget "theia:menubar"
                    [nodeBecomes
                       (Examples.submenu "Edit"
                          [Examples.action "cmdCopy"; Examples.action "cmdPaste"])
                       (new_DynamicMenuWidget (commandRegistry Examples.editWorldBefore)
                          (Examples.submenu "Edit" [Examples.action "cmdCopy"])
                          (Examples.menuBarOptions Examples.editWorldBefore
                             Examples.editRoot))]
                    (Some 0)))
  = [["cmdCopy"; "cmdPaste"]].
Proof.
  set (ms := menus _).
  destruct (X16_hook_reprojects_the_active_menu Examples.editWorldBefore
              (mkDynamicMenuBarWidget "theia:menubar"
                 [new_DynamicMenuWidget (commandRegistry Examples.editWorldBefore)
                    (Examples.submenu "Edit" [Examples.action "cmdCopy"])
                    (Examples.menuBarOptions Examples.editWorldBefore Examples.editRoot)]
                 None)
              0
              (new_DynamicMenuWidget (commandRegistry Examples.editWorldBefore)
                 (Examples.submenu "Edit" [Examples.action "cmdCopy"])
                 (Examples.menuBarOptions Examples.editWorldBefore Examples.editRoot))
              (Examples.submenu "Edit"
                 [Examples.action "cmdCopy"; Examples.action "cmdPaste"])
              (commandRegistry Examples.editWorldAfter))
    as ((shown & Hshown & _ & _ & _ & Hcommands) & _ & Hlength).
  - vm_compute. reflexivity.
  - reflexivity.
  - change (ms !! 0 = Some shown) in Hshown. change (length ms = 1) in Hlength.
    destruct ms as [|x [|? ?]]; [done| |done].
    injection Hshown as ->. cbn [fmap list_fmap]. rewrite Hcommands. reflexivity.
Defined.

(** ** Context menu and menu bar side by side *)

(** C3. Take an action whose entry in the snapshot of a context menu, as
    [createContextMenu] builds it, answers "not visible" at some instant:
    projected under the snapshot of that context menu the action is left
    out, the output being the one of the model without the node, and the
    context menu shown at that instant has no command descriptor for it.
    Projected under the snapshot of a menu of the menu bar, as
    [createMenuBar] builds it with [isVisible] answering true for
    everything, the same action is emitted as a command descriptor and stays
    in the output; and when the action is in the node of that menu, the menu
    holds a command descriptor for it, when it is made and when it is shown
    at that instant. *)
Theorem C3_invisible_action_context_vs_menu_bar
    w path contextMenu w' bar barMenu now a entry :
  createContextMenu w path = Some contextMenu →
  createMenuBar w' = Some bar → barMenu ∈ menus bar →
  _commands (commands (options contextMenu)) !! action_commandId a = Some entry →
  Common.isVisible now (closes_over entry) = false →
  closes_over entry = action_commandId a
  ∧ (∀ items i l s before after,
       buildSubMenus now (options contextMenu) items
         (mkCompositeMenuNode i l s (before ++ Action a :: after))
         (commands (options contextMenu))
       = buildSubMenus now (options contextMenu) items
           (mkCompositeMenuNode i l s (before ++ after))
           (commands (options contextMenu)))
  ∧ (∀ i l s cs, action_commandId a ∉ commandsIn
       (project now (options contextMenu) (mkCompositeMenuNode i l s cs)))
  ∧ (action_commandId a ∉ commandsIn (items (super (aboutToShow now contextMenu))))
  ∧ (∀ items,
       projectChild now (options barMenu) (commands (options barMenu)) items (Action a)
       = items ++ [CommandItem (action_commandId a)])
  ∧ (∀ i l s before after,
       CommandItem (action_commandId a)
       ∈ project now (options barMenu)
           (mkCompositeMenuNode i l s (before ++ Action a :: after)))
  ∧ (a ∈ actions (menu barMenu) →
     action_commandId a ∈ commandsIn (items (super barMenu))
     ∧ action_commandId a ∈ commandsIn (items (super (aboutToShow now barMenu)))).
Proof.
  intros Hcontext Hbar Hin Hentry Hvis.
  assert (∃ ctx, createPhosporCommands w (menuProvider w path) = Some ctx
                 ∧ options contextMenu = mkIOptions ctx) as (ctx & Hctx & Ho).
  { revert Hcontext. unfold createContextMenu.
    destruct (createPhosporCommands w (menuProvider w path)) as [ctx|]; simpl; [|done].
    intros [= <-]. by exists ctx. }
  rewrite Ho in *. cbn [commands] in Hentry.
  destruct (createPhosporCommands_Some _ _ _ Hctx) as (Hr & _ & Hself & _).
  assert (Phosphor.isVisible now ctx (action_commandId a) = false) as Hhidden.
  { unfold Phosphor.isVisible. by rewrite Hr, Hentry. }
  assert (∀ i, Phosphor.isVisible now (commands (options barMenu)) i = true) as Hforced.
  { apply createMenuBar_Some in Hbar as (cmds & _ & ->). cbn [menus] in Hin.
    by apply list_elem_of_fmap in Hin as (c & -> & _). }
  split; [by apply Hself|]. split.
  { intros items i l s before after.
    rewrite !buildSubMenus_fold; cbn [children].
    rewrite !fold_projectChild_app; cbn [fold_left].
    rewrite projectChild_contribution.
    by rewrite (proj2 (contribution_action_nil now (mkIOptions ctx) a) Hhidden). }
  split.
  { intros i l s cs Hc. apply commandsIn_project in Hc.
    cbn [commands] in Hc. by rewrite Hhidden in Hc. }
  split.
  { rewrite aboutToShow_eq, Ho. cbn [super items]. intros Hc.
    apply commandsIn_project in Hc. cbn [commands] in Hc. by rewrite Hhidden in Hc. }
  split.
  { intros items. unfold projectChild. by rewrite Hforced. }
  split.
  { intros i l s before after. rewrite project_fold; cbn [children].
    rewrite fold_projectChild_app; cbn [fold_left].
    destruct (fold_projectChild_prefix now (options barMenu) after
                (projectChild now (options barMenu) (commands (options barMenu))
                   (fold_left (projectChild now (options barMenu)
                                 (commands (options barMenu))) before [])
                   (Action a))) as [suffix ->].
    unfold projectChild at 1. rewrite Hforced. cbn [negb].
    rewrite !elem_of_app, list_elem_of_singleton. tauto. }
  intros Ha.
  assert (∀ state,
            action_commandId a
            ∈ commandsIn (project state (options barMenu) (menu barMenu))) as Hshown.
  { intros state. rewrite commandsIn_visibleIds. unfold visibleIds.
    apply list_elem_of_filter. split.
    - apply createMenuBar_Some in Hbar as (cmds & _ & ->). cbn [menus] in Hin.
      by apply list_elem_of_fmap in Hin as (c & -> & _).
    - apply list_elem_of_fmap. by exists a. }
  split.
  - apply createMenuBar_Some in Hbar as (cmds & _ & ->). cbn [menus] in Hin.
    apply list_elem_of_fmap in Hin as (c & Hc & _).
    specialize (Hshown (commandRegistry w')). rewrite Hc in *.
    rewrite submenu_is_new_widget. exact Hshown.
  - rewrite aboutToShow_eq. cbn [super items]. apply Hshown.
Qed.

Lemma C3_witness :
  commandsIn
    (items (super (new_DynamicMenuWidget (commandRegistry Examples.fileWorld)
                     Examples.fileRoot
                     (Examples.contextOptions Examples.fileWorld Examples.fileRoot))))
  = []
  ∧ "cmdNew"
    ∈ commandsIn
        (items (super (new_DynamicMenuWidget (commandRegistry Examples.fileWorld)
                         Examples.file
                         (Examples.menuBarOptions Examples.fileWorld Examples.fileRoot)))).
Proof.
  split; [vm_compute; reflexivity|].
  destruct (C3_invisible_action_context_vs_menu_bar
              Examples.fileWorld []
              (new_DynamicMenuWidget (commandRegistry Examples.fileWorld)
                 Examples.fileRoot
                 (Examples.contextOptions Examples.fileWorld Examples.fileRoot))
              Examples.fileWorld
              (mkDynamicMenuBarWidget "theia:menubar"
                 [new_DynamicMenuWidget (commandRegistry Examples.fileWorld)
                    Examples.file
                    (Examples.menuBarOptions Examples.fileWorld Examples.fileRoot)]
                 None)
              (new_DynamicMenuWidget (commandRegistry Examples.fileWorld)
                 Examples.file
                 (Examples.menuBarOptions Examples.fileWorld Examples.fileRoot))
              (commandRegistry Examples.fileWorld)
              (mkActionMenuNode "cmdNew" "cmdNew")
              (mkICommandOptions "cmdNew" "cmdNew" None))
    as (_ & _ & _ & _ & _ & _ & Hbar).
  - vm_compute. reflexivity.
  - vm_compute. reflexivity.
  - cbn [menus]. by left.
  - vm_compute. reflexivity.
  - reflexivity.
  - apply Hbar. vm_compute. by left.
Defined.
